(** * EGAP Command Plane (ACC): task lifecycle, zombie detection,
      agent discovery and trace correlation

    A shallow embedding of the request handlers of the command-plane
    server and of its background discovery job, with the external
    collaborators (relational store, message bus, registry endpoint,
    clock, UUID generator) made explicit as state and inputs. *)

From Stdlib Require Import ZArith Lia.
From stdpp Require Import base option list gmap strings sorting pretty.

Local Open Scope Z_scope.

(** ** JavaScript values carried by the opaque JSON columns *)

(** A JSON document.  Numbers are kept integral: only their truthiness
    is ever observed by the handlers.  An object is its list of fields,
    keys distinct, looked up by key. *)
#[warnings="-register-all"]
Inductive Json : Type :=
  | JNull
  | JBool (b : bool)
  | JNum (n : Z)
  | JStr (s : string)
  | JArr (items : list Json)
  | JObj (fields : list (string * Json)).

(** A JavaScript value is a JSON value or [undefined] ([None]). *)
Definition JsValue : Type := option Json.

Fixpoint assoc {A} (k : string) (l : list (string * A)) : option A :=
  match l with
  | [] => None
  | (k', v) :: l => if decide (k' = k) then Some v else assoc k l
  end.

(** [v.k] on a non-nullish value: own JSON properties only; primitives
    and arrays carry none of the keys read here. *)
Definition prop (k : string) (v : Json) : JsValue :=
  match v with
  | JObj fields => assoc k fields
  | _ => None
  end.

(** [v?.k]: optional chaining short-circuits on [null] (and [undefined]). *)
Definition opt_prop (k : string) (v : Json) : JsValue :=
  match v with
  | JNull => None
  | _ => prop k v
  end.

(** JavaScript truthiness, as tested by [||] and [!]. *)
Definition truthy (v : JsValue) : bool :=
  match v with
  | None => false
  | Some JNull => false
  | Some (JBool b) => b
  | Some (JNum n) => negb (n =? 0)
  | Some (JStr s) => negb (bool_decide (s = ""))
  | Some (JArr _) => true
  | Some (JObj _) => true
  end.

Definition is_array (v : JsValue) : bool :=
  match v with
  | Some (JArr _) => true
  | _ => false
  end.

(** ** Data model *)

Inductive TaskStatus : Type := PENDING | APPROVED | REJECTED.

Global Instance TaskStatus_eq_dec : EqDecision TaskStatus.
Proof. solve_decision. Defined.

Record Agent : Type := mkAgent {
  agent_id : string;
  agent_name : string;
  role : string;
  goal : string;
  systemPrompt : string;
  tools : list string;
}.

(** A row of the Task table; its primary key [id] is the key under
    which the row sits in the store.  [createdAt] is an instant in
    epoch milliseconds, [inputPayload] is [JNull] for a database null. *)
Record Task : Type := mkTask {
  description : string;
  status : TaskStatus;
  inputPayload : Json;
  createdAt : Z;
  agentId : string;
}.

Definition with_status (s : TaskStatus) (t : Task) : Task :=
  {| description := description t; status := s;
     inputPayload := inputPayload t; createdAt := createdAt t;
     agentId := agentId t |}.

(** What [findMany]/[update] hand back with [include: { agent: true }]:
    the row, its key and the joined owner. *)
Record TaskRow : Type := mkTaskRow {
  row_id : string;
  row_task : Task;
  row_agent : option Agent;
}.

(** The [data] argument of [prisma.traceSpan.create]. *)
Record SpanData : Type := mkSpanData {
  sd_traceId : Json;
  sd_service : string;
  sd_operation : string;
  sd_durationMs : Z;
  sd_metadata : Json;
}.

(** The argument of [publishMessage]: the document that is stringified
    into [data], and the [traceId] attribute. *)
Record BusMessage : Type := mkBusMessage {
  msg_data : Json;
  msg_attr_traceId : Json;
}.

Record DiscoveryStatus : Type := mkDiscoveryStatus {
  lastRun : option Z;
  agentsDiscovered : nat;
  agentsSynced : list string;
  error : option string;
}.

(** The process and its collaborators: the Agent and Task tables, the
    spans this process has written, the messages it has published, the
    discovery singleton and the number of identifiers drawn so far. *)
Record State : Type := mkState {
  agents : list Agent;
  tasks : gmap string Task;
  spans : list SpanData;
  bus : list BusMessage;
  discoveryStatus : DiscoveryStatus;
  drawn : nat;
}.

Definition initial_discoveryStatus : DiscoveryStatus :=
  {| lastRun := None; agentsDiscovered := 0; agentsSynced := []; error := None |}.

Definition set_agents (f : list Agent → list Agent) (st : State) : State :=
  {| agents := f (agents st); tasks := tasks st; spans := spans st;
     bus := bus st; discoveryStatus := discoveryStatus st; drawn := drawn st |}.
Definition set_tasks (f : gmap string Task → gmap string Task) (st : State) : State :=
  {| agents := agents st; tasks := f (tasks st); spans := spans st;
     bus := bus st; discoveryStatus := discoveryStatus st; drawn := drawn st |}.
Definition set_spans (f : list SpanData → list SpanData) (st : State) : State :=
  {| agents := agents st; tasks := tasks st; spans := f (spans st);
     bus := bus st; discoveryStatus := discoveryStatus st; drawn := drawn st |}.
Definition set_bus (f : list BusMessage → list BusMessage) (st : State) : State :=
  {| agents := agents st; tasks := tasks st; spans := spans st;
     bus := f (bus st); discoveryStatus := discoveryStatus st; drawn := drawn st |}.
Definition set_discoveryStatus (f : DiscoveryStatus → DiscoveryStatus) (st : State) : State :=
  {| agents := agents st; tasks := tasks st; spans := spans st;
     bus := bus st; discoveryStatus := f (discoveryStatus st); drawn := drawn st |}.
Definition set_drawn (f : nat → nat) (st : State) : State :=
  {| agents := agents st; tasks := tasks st; spans := spans st;
     bus := bus st; discoveryStatus := discoveryStatus st; drawn := f (drawn st) |}.

(** ** Effects: state that survives a throw *)

Inductive ErrorKind : Type :=
  | RecordNotFound | TypeError | ValidationError | UniqueViolation
  | NetworkError | SyntaxError.

Record JsError : Type := mkJsError { err_kind : ErrorKind; message : string }.

Inductive Result (A : Type) : Type :=
  | Ok (a : A)
  | Throw (e : JsError).
Arguments Ok {A} a.
Arguments Throw {A} e.

(** A handler runs against the state and either returns or throws; no
    transaction is opened, so the writes made before a throw remain. *)
Definition M (A : Type) : Type := State → State * Result A.

Global Instance M_ret : MRet M := λ A a st, (st, Ok a).
Global Instance M_bind : MBind M := λ A B f m st,
  match m st with
  | (st', Ok a) => f a st'
  | (st', Throw e) => (st', Throw e)
  end.

Definition throw {A} (e : JsError) : M A := λ st, (st, Throw e).
Definition get_state : M State := λ st, (st, Ok st).
Definition modify (f : State → State) : M unit := λ st, (f st, Ok tt).

(** [try { body } catch (err) { handler(err) }] *)
Definition try_catch {A} (body : M A) (handler : JsError → M A) : M A := λ st,
  match body st with
  | (st', Ok a) => (st', Ok a)
  | (st', Throw e) => handler e st'
  end.

(** ** The store, the bus and the identifier source *)

Section Server.

(** [randomUUID_at n] is the identifier handed out by the [n]-th draw
    of [randomUUID()] (and of the store's default primary keys). *)
Variable randomUUID_at : nat → string.

Definition randomUUID : M string := λ st,
  (set_drawn S st, Ok (randomUUID_at (drawn st))).

Definition agent_by_id (id : string) (l : list Agent) : option Agent :=
  List.find (λ a, bool_decide (agent_id a = id)) l.

Definition agent_by_name (name : string) (l : list Agent) : option Agent :=
  List.find (λ a, bool_decide (agent_name a = name)) l.

(** [prisma.task.update({ where: { id }, data: { status }, include: { agent: true } })] *)
Definition task_update (id : string) (s : TaskStatus) : M TaskRow := λ st,
  match tasks st !! id with
  | None => (st, Throw (mkJsError RecordNotFound "Record to update not found."))
  | Some t =>
      let t' := with_status s t in
      (set_tasks <[id := t']> st,
       Ok (mkTaskRow id t' (agent_by_id (agentId t') (agents st))))
  end.

(** [typeof v === 'string'] *)
Definition is_text (v : Json) : bool :=
  match v with
  | JStr _ => true
  | _ => false
  end.

(** [prisma.traceSpan.create({ data })].  [traceId] is a text column
    (the correlator keys a [Map<string, ...>] by it): the client
    validates the argument before anything is sent and refuses a value
    that is not a string, in which case no row is written.  The other
    fields are built by the handlers from string literals, a difference
    of two clock readings and a JSON document, which the store takes. *)
Definition traceSpan_create (d : SpanData) : M unit :=
  if is_text (sd_traceId d)
  then modify (set_spans (λ l, l ++ [d]))
  else throw (mkJsError ValidationError "Invalid value provided for argument traceId: expected String").

(** [pubsub.topic(topicName).publishMessage({ data, attributes })].  The
    client checks the attributes before it queues the message and throws
    a [TypeError] when one of them is not a string; nothing is published
    then.  A message it accepts is held by the bus once. *)
Definition publishMessage (m : BusMessage) : M unit :=
  if is_text (msg_attr_traceId m)
  then modify (set_bus (λ l, l ++ [m]))
  else throw (mkJsError TypeError "All attributes must be in the form of a string.").

(** ** Task lifecycle *)

(** [(task.inputPayload as any)?.traceId || randomUUID()] *)
Definition derive_traceId (payload : Json) : M Json :=
  match opt_prop "traceId" payload with
  | Some v => if truthy (Some v) then mret v else u ← randomUUID; mret (JStr u)
  | None => u ← randomUUID; mret (JStr u)
  end.

Definition resumePayload (task : TaskRow) (traceId : Json) : Json :=
  JObj [("type", JStr "RESUME");
        ("taskId", JStr (row_id task));
        ("agentId", JStr (agentId (row_task task)));
        ("traceId", traceId)].

(** [task.agent.name] *)
Definition task_agent_name (task : TaskRow) : M string :=
  match row_agent task with
  | Some a => mret (agent_name a)
  | None => throw (mkJsError TypeError "Cannot read properties of null (reading 'name')")
  end.

Definition span_metadata (task : TaskRow) (agentName : string) : Json :=
  JObj [("taskId", JStr (row_id task)); ("agentName", JStr agentName)].

(** [POST /api/tasks/:id/approve]; [approveStart] and [recordedAt] are
    the two readings of [Date.now()]. *)
Definition approve (id : string) (approveStart recordedAt : Z) : M TaskRow :=
  task ← task_update id APPROVED;
  traceId ← derive_traceId (inputPayload (row_task task));
  publishMessage (mkBusMessage (resumePayload task traceId) traceId);;
  agentName ← task_agent_name task;
  traceSpan_create
    (mkSpanData traceId "acc" "approve_task" (recordedAt - approveStart)
       (span_metadata task agentName));;
  mret task.

(** [POST /api/tasks/:id/reject] *)
Definition reject (id : string) (rejectStart recordedAt : Z) : M TaskRow :=
  task ← task_update id REJECTED;
  traceId ← derive_traceId (inputPayload (row_task task));
  agentName ← task_agent_name task;
  traceSpan_create
    (mkSpanData traceId "acc" "reject_task" (recordedAt - rejectStart)
       (span_metadata task agentName));;
  mret task.

(** ** Zombie detection and the task queue *)

(** FRS: Zombie Detection — tasks PENDING longer than this are flagged. *)
Definition ZOMBIE_THRESHOLD_MS : Z := 5 * 60 * 1000.

Definition createdAt_asc (a b : TaskRow) : Prop :=
  createdAt (row_task a) ≤ createdAt (row_task b).
Definition createdAt_desc (a b : TaskRow) : Prop :=
  createdAt (row_task b) ≤ createdAt (row_task a).

Global Instance createdAt_asc_dec a b : Decision (createdAt_asc a b).
Proof. unfold createdAt_asc. apply _. Defined.
Global Instance createdAt_desc_dec a b : Decision (createdAt_desc a b).
Proof. unfold createdAt_desc. apply _. Defined.

Definition join_agent (st : State) (p : string * Task) : TaskRow :=
  mkTaskRow p.1 p.2 (agent_by_id (agentId p.2) (agents st)).

(** [prisma.task.findMany({ where, include: { agent: true }, orderBy })] *)
Definition task_findMany (P : Task → Prop) `{∀ t, Decision (P t)}
    (order : relation TaskRow) `{∀ a b, Decision (order a b)}
    (st : State) : list TaskRow :=
  merge_sort order
    (join_agent st <$> filter (λ p : string * Task, P p.2) (map_to_list (tasks st))).

Record TaskView : Type := mkTaskView {
  tv_row : TaskRow;
  isZombie : bool;
}.

Record TasksResponse : Type := mkTasksResponse {
  tasks_count : nat;
  tasks_listed : list TaskView;
}.

Definition annotate (now : Z) (t : TaskRow) : TaskView :=
  mkTaskView t (bool_decide (now - createdAt (row_task t) > ZOMBIE_THRESHOLD_MS)).

(** [GET /api/tasks] *)
Definition get_tasks (now : Z) (st : State) : TasksResponse :=
  let found := task_findMany (λ t, status t = PENDING) createdAt_desc st in
  mkTasksResponse (length found) (annotate now <$> found).

Record ZombiesResponse : Type := mkZombiesResponse {
  zombies_count : nat;
  threshold : string;
  zombies : list TaskRow;
}.

(** [GET /api/tasks/zombies] *)
Definition get_zombies (now : Z) (st : State) : ZombiesResponse :=
  let cutoff := now - ZOMBIE_THRESHOLD_MS in
  let found :=
    task_findMany (λ t, status t = PENDING ∧ createdAt t < cutoff) createdAt_asc st in
  mkZombiesResponse (length found)
    (pretty (ZOMBIE_THRESHOLD_MS / 60000) +:+ " minutes") found.

(** [GET /api/agents] *)
Definition get_agents (st : State) : nat * list Agent :=
  (length (agents st), agents st).

(** ** Agent Card auto-registration *)

Inductive Body : Type :=
  | BodyJson (card : Json)
  | BodyInvalid (msg : string).

Record Response : Type := mkResponse { resp_status : Z; resp_body : Body }.

(** What [await fetch(url)] does: rejects, or resolves to a response. *)
Inductive FetchOutcome : Type :=
  | FetchRejects (msg : string)
  | FetchResolves (res : Response).

Definition res_ok (res : Response) : bool :=
  bool_decide (200 ≤ resp_status res ≤ 299).

(** [await res.json()] *)
Definition res_json (res : Response) : M Json :=
  match resp_body res with
  | BodyJson card => mret card
  | BodyInvalid msg => throw (mkJsError SyntaxError msg)
  end.

(** [v.k] where [v] may be [null] *)
Definition member (k : string) (v : Json) : M JsValue :=
  match v with
  | JNull =>
      throw (mkJsError TypeError ("Cannot read properties of null (reading '" +:+ k +:+ "')"))
  | _ => mret (prop k v)
  end.

(** Modelled from the spec: the store schema is not among the sources;
    the Agent columns [name], [role] and [goal] are required text
    (data model, Agent), so the store client refuses an argument that
    is missing or is not a string. *)
Definition text_column (col : string) (v : JsValue) : M string :=
  match v with
  | Some (JStr s) => mret s
  | _ => throw (mkJsError ValidationError ("Invalid value for argument `" +:+ col +:+ "`"))
  end.

(** [prisma.agent.findUnique({ where: { name } })] *)
Definition agent_findUnique (name : JsValue) : M (option Agent) :=
  n ← text_column "name" name;
  st ← get_state;
  mret (agent_by_name n (agents st)).

(** [prisma.agent.create({ data: { name, role, goal, systemPrompt } })];
    [name] is a unique column.  The row's [id] is the store's default,
    taken here from the supply of identifiers [randomUUID()] draws on. *)
Definition agent_create (name role goal : JsValue) (prompt : string) : M unit :=
  n ← text_column "name" name;
  r ← text_column "role" role;
  g ← text_column "goal" goal;
  st ← get_state;
  match agent_by_name n (agents st) with
  | Some _ => throw (mkJsError UniqueViolation "Unique constraint failed on the fields: (`name`)")
  | None =>
      id ← randomUUID;
      modify (set_agents (λ l, l ++ [mkAgent id n r g prompt []]))
  end.

(** The text of [agent.name] once the lookup has accepted it: the
    store refuses every value that is not a string before the template
    literal and the [push] are reached. *)
Definition interpolate (v : JsValue) : string :=
  match v with
  | Some (JStr s) => s
  | _ => ""
  end.

Definition set_lastRun (v : option Z) (d : DiscoveryStatus) : DiscoveryStatus :=
  mkDiscoveryStatus v (agentsDiscovered d) (agentsSynced d) (error d).
Definition set_agentsDiscovered (v : nat) (d : DiscoveryStatus) : DiscoveryStatus :=
  mkDiscoveryStatus (lastRun d) v (agentsSynced d) (error d).
Definition set_agentsSynced (v : list string) (d : DiscoveryStatus) : DiscoveryStatus :=
  mkDiscoveryStatus (lastRun d) (agentsDiscovered d) v (error d).
Definition set_error (v : option string) (d : DiscoveryStatus) : DiscoveryStatus :=
  mkDiscoveryStatus (lastRun d) (agentsDiscovered d) (agentsSynced d) v.

Definition update_status (f : DiscoveryStatus → DiscoveryStatus) : M unit :=
  modify (set_discoveryStatus f).

(** One iteration of the upsert loop. *)
Definition upsert_agent (agent : Json) : M unit :=
  name ← member "name" agent;
  existing ← agent_findUnique name;
  match existing with
  | None =>
      role ← member "role" agent;
      goal ← member "goal" agent;
      agent_create name role goal
        ("Auto-registered from Agent Card (" +:+ interpolate name +:+ ")")
  | Some _ => mret tt
  end;;
  update_status (λ d, set_agentsSynced (agentsSynced d ++ [interpolate name]) d).

(** [for (const agent of card.agents) { ... }] *)
Fixpoint upsert_all (entries : list Json) : M unit :=
  match entries with
  | [] => mret tt
  | agent :: rest => upsert_agent agent;; upsert_all rest
  end.

(** The body of the [try] block of [discoverAgents]; [now] is the
    instant read by [new Date()] at its end. *)
Definition discover_body (fetched : FetchOutcome) (now : Z) : M unit :=
  match fetched with
  | FetchRejects msg => throw (mkJsError NetworkError msg)
  | FetchResolves res =>
      if negb (res_ok res) then
        update_status
          (set_error (Some ("HTTP " +:+ pretty (resp_status res) +:+ " from Agent Card")))
      else
        card ← res_json res;
        card_agents ← member "agents" card;
        if negb (truthy card_agents) || negb (is_array card_agents) then
          update_status (set_error (Some "No agents array in Agent Card response"))
        else
          let entries := match card_agents with Some (JArr l) => l | _ => [] end in
          update_status (set_agentsDiscovered (length entries));;
          update_status (set_agentsSynced []);;
          update_status (set_error None);;
          upsert_all entries;;
          update_status (set_lastRun (Some now))
  end.

(** [err.message || 'Unknown error'] *)
Definition error_text (err : JsError) : string :=
  if bool_decide (message err = "") then "Unknown error" else message err.

Definition discoverAgents (fetched : FetchOutcome) (now : Z) : M unit :=
  try_catch (discover_body fetched now)
    (λ err, update_status (set_error (Some (error_text err)))).

(** [GET /api/discovery] reads the singleton. *)
Definition get_discovery (st : State) : DiscoveryStatus := discoveryStatus st.

(** ** Trace correlation *)

Record TraceSpan : Type := mkTraceSpan {
  span_id : string;
  traceId : string;
  parentId : option string;
  service : string;
  operation : string;
  span_status : string;
  durationMs : Z;
  metadata : Json;
  startedAt : Z;
}.

(** [s.parentId] as a JavaScript value ([null] when unset). *)
Definition parentId_value (s : TraceSpan) : JsValue :=
  match parentId s with
  | None => Some JNull
  | Some p => Some (JStr p)
  end.

(** An insertion-ordered [Map<string, V>]. *)
Definition OrderedMap (V : Type) : Type := list (string * V).

Definition om_has {V} (k : string) (m : OrderedMap V) : bool :=
  bool_decide (is_Some (assoc k m)).

Fixpoint om_set {V} (k : string) (v : V) (m : OrderedMap V) : OrderedMap V :=
  match m with
  | [] => [(k, v)]
  | (k', v') :: m' =>
      if decide (k' = k) then (k, v) :: m' else (k', v') :: om_set k v m'
  end.

(** [m.get(k)!.push(x)]: the array held under [k] grows in place. *)
Fixpoint om_push {V} (k : string) (x : V) (m : OrderedMap (list V)) : OrderedMap (list V) :=
  match m with
  | [] => []
  | (k', g) :: m' =>
      if decide (k' = k) then (k', g ++ [x]) :: m' else (k', g) :: om_push k x m'
  end.

Definition group_step (m : OrderedMap (list TraceSpan)) (span : TraceSpan)
    : OrderedMap (list TraceSpan) :=
  let m1 := if om_has (traceId span) m then m else om_set (traceId span) [] m in
  om_push (traceId span) span m1.

(** Group spans by traceId *)
Definition group_spans (recentSpans : list TraceSpan) : OrderedMap (list TraceSpan) :=
  fold_left group_step recentSpans [].

(** [Math.min(Number(query.limit) || 20, 100)]; the query parameter is
    given by the integer it converts to, [None] for an absent or
    non-numeric one.  Limits that convert to a fraction or to an
    infinity are not represented. *)
Definition traces_limit (q : option Z) : Z :=
  Z.min (match q with
         | Some n => if n =? 0 then 20 else n
         | None => 20
         end) 100.

(** [l.slice(0, n)] *)
Definition slice0 {A} (n : Z) (l : list A) : list A :=
  if 0 <=? n then take (Z.to_nat n) l
  else take (length l - Z.to_nat (- n))%nat l.

(** [[...new Set(l)]]: first occurrences, in order. *)
Fixpoint unique {A} `{EqDecision A} (seen l : list A) : list A :=
  match l with
  | [] => []
  | x :: l => if decide (x ∈ seen) then unique seen l else x :: unique (x :: seen) l
  end.

Record SpanView : Type := mkSpanView {
  sv_id : string;
  sv_parentId : option string;
  sv_service : string;
  sv_operation : string;
  sv_status : string;
  sv_durationMs : Z;
  sv_metadata : Json;
  sv_startedAt : Z;
}.

Definition span_view (s : TraceSpan) : SpanView :=
  mkSpanView (span_id s) (parentId s) (service s) (operation s) (span_status s)
    (durationMs s) (metadata s) (startedAt s).

Record TraceSummary : Type := mkTraceSummary {
  ts_traceId : string;
  rootService : string;
  rootOperation : string;
  services : list string;
  spanCount : nat;
  totalDurationMs : Z;
  ts_status : string;
  ts_startedAt : Z;
  ts_spans : list SpanView;
}.

(** [spans.find(s => !s.parentId) || spans[0]]; [None] is [undefined]. *)
Definition find_root (spans : list TraceSpan) : option TraceSpan :=
  match List.find (λ s, negb (truthy (parentId_value s))) spans with
  | Some r => Some r
  | None => head spans
  end.

Definition hasError (spans : list TraceSpan) : bool :=
  existsb (λ s, bool_decide (span_status s = "ERROR")) spans.

(** The summary of one map entry; reading [root.service] off an
    [undefined] root throws. *)
Definition summarize (entry : string * list TraceSpan) : Result TraceSummary :=
  let '(traceId, spans) := entry in
  match find_root spans with
  | None =>
      Throw (mkJsError TypeError "Cannot read properties of undefined (reading 'service')")
  | Some root =>
      Ok (mkTraceSummary traceId (service root) (operation root)
            (unique [] (service <$> spans)) (length spans) (durationMs root)
            (if hasError spans then "ERROR" else "OK") (startedAt root)
            (span_view <$> spans))
  end.

Fixpoint map_result {A B} (f : A → Result B) (l : list A) : Result (list B) :=
  match l with
  | [] => Ok []
  | x :: l =>
      match f x with
      | Throw e => Throw e
      | Ok y =>
          match map_result f l with
          | Throw e => Throw e
          | Ok ys => Ok (y :: ys)
          end
      end
  end.

Record TracesResponse : Type := mkTracesResponse {
  traces_count : nat;
  traces : list TraceSummary;
}.

(** [GET /api/traces]: [recentSpans] is what the Trace Store returned
    for the newest-first query. *)
Definition get_traces (q : option Z) (recentSpans : list TraceSpan) : Result TracesResponse :=
  let limit := traces_limit q in
  match map_result summarize (slice0 limit (group_spans recentSpans)) with
  | Throw e => Throw e
  | Ok l => Ok (mkTracesResponse (length l) l)
  end.

(** ** The process as a transition system *)

Inductive Event : Type :=
  | Approve (id : string) (approveStart recordedAt : Z)
  | Reject (id : string) (rejectStart recordedAt : Z)
  | Discover (fetched : FetchOutcome) (now : Z)
  | GetTasks (now : Z)
  | GetZombies (now : Z)
  | GetAgents
  | GetDiscovery
  | GetTraces (q : option Z) (recentSpans : list TraceSpan)
  | GetHealth.

(** The state the process is left in by one event; the queries are
    functions of the state and leave it as it is. *)
Definition handle (st : State) (e : Event) : State :=
  match e with
  | Approve id t0 t1 => (approve id t0 t1 st).1
  | Reject id t0 t1 => (reject id t0 t1 st).1
  | Discover fetched now => (discoverAgents fetched now st).1
  | GetTasks _ | GetZombies _ | GetAgents | GetDiscovery | GetTraces _ _ | GetHealth => st
  end.

Definition run (st : State) (es : list Event) : State := fold_left handle es st.

(** ** The routes the server registers *)

Inductive Method : Type := GET | POST.

Global Instance Method_eq_dec : EqDecision Method.
Proof. solve_decision. Defined.

(** A segment of a route's path: a literal, or a parameter such as
    [:id], which stands for any non-empty segment. *)
Inductive Segment : Type :=
  | Lit (s : string)
  | Param (name : string).

Inductive Endpoint : Type :=
  | HealthCheck | WorkforceMap | TaskQueue | ZombieList
  | ApproveTask | RejectTask | UsageSummary | DiscoveryStatusPage | TraceMap.

(** The calls of [server.get] and [server.post], in source order. *)
Definition routes : list (Method * list Segment * Endpoint) :=
  [(GET, [Lit "api"; Lit "health"], HealthCheck);
   (GET, [Lit "api"; Lit "agents"], WorkforceMap);
   (GET, [Lit "api"; Lit "tasks"], TaskQueue);
   (GET, [Lit "api"; Lit "tasks"; Lit "zombies"], ZombieList);
   (POST, [Lit "api"; Lit "tasks"; Param "id"; Lit "approve"], ApproveTask);
   (POST, [Lit "api"; Lit "tasks"; Param "id"; Lit "reject"], RejectTask);
   (GET, [Lit "api"; Lit "usage"], UsageSummary);
   (GET, [Lit "api"; Lit "discovery"], DiscoveryStatusPage);
   (GET, [Lit "api"; Lit "traces"], TraceMap)].

Fixpoint route_matches (pattern : list Segment) (path : list string) : bool :=
  match pattern, path with
  | [], [] => true
  | Lit s :: pattern, x :: path => bool_decide (s = x) && route_matches pattern path
  | Param _ :: pattern, x :: path => negb (bool_decide (x = "")) && route_matches pattern path
  | _, _ => false
  end.

(** The handler a request is routed to, [path] being the segments of
    its URL path.  A request that matches none is left to the static
    file plugin, which serves the files of [public/] and answers 404
    for everything else. *)
Definition route (m : Method) (path : list string) : option Endpoint :=
  snd <$> List.find (λ r, bool_decide (r.1.1 = m) && route_matches r.1.2 path) routes.

(** ** Reading a trace summary against the window *)

(** [r] is the first element of [l] that satisfies [P]. *)
Definition first_with {A} (P : A → Prop) (l : list A) (r : A) : Prop :=
  ∃ pre post, l = pre ++ r :: post ∧ P r ∧ Forall (λ x, ¬ P x) pre.

(** The root of a span set: its first span that satisfies [candidate],
    or its first span when none does. *)
Definition root_among (candidate : TraceSpan → Prop) (spans : list TraceSpan)
    (r : TraceSpan) : Prop :=
  first_with candidate spans r ∨
  (Forall (λ x, ¬ candidate x) spans ∧ head spans = Some r).

(** The root as the design document words it: a null [parentId] marks
    the candidate. *)
Definition null_parent (s : TraceSpan) : Prop := parentId s = None.

(** The candidate the handler tests for: a [parentId] that is null or
    the empty string. *)
Definition unset_parent (s : TraceSpan) : Prop :=
  parentId s = None ∨ parentId s = Some "".

(** The spans of the window that belong to trace [k], in query order. *)
Definition spans_of (k : string) (window : list TraceSpan) : list TraceSpan :=
  filter (λ x, traceId x = k) window.

(** ** Reading a discovery run *)

(** The failures met before the first status field of a run is written:
    the fetch rejects, the response is not a success, its body is not
    JSON, or the document carries no [agents] array. *)
Definition fails_before_sync (fetched : FetchOutcome) : bool :=
  match fetched with
  | FetchRejects _ => true
  | FetchResolves res =>
      negb (res_ok res) ||
      match resp_body res with
      | BodyInvalid _ => true
      | BodyJson card => negb (is_array (prop "agents" card))
      end
  end.

(** The entries of the registry document. *)
Definition card_entries (fetched : FetchOutcome) : list Json :=
  match fetched with
  | FetchResolves (mkResponse _ (BodyJson card)) =>
      match prop "agents" card with
      | Some (JArr entries) => entries
      | _ => []
      end
  | _ => []
  end.

(** The state once [names] have been pushed onto [agentsSynced]. *)
Definition synced_more (names : list string) (st : State) : State :=
  set_discoveryStatus (λ d, set_agentsSynced (agentsSynced d ++ names) d) st.

(** The state once the rows [created] have been inserted, each under a
    freshly drawn identifier. *)
Definition registered (created : list Agent) (st : State) : State :=
  set_agents (λ l, l ++ created) (set_drawn (λ n, length created + n)%nat st).

(** How a run that has entered the loop ends: [lastRun] is stamped
    after a completed loop, [error] is set by the [catch] otherwise. *)
Definition sync_ended (now : Z) (looped : State * Result unit) : State * Result unit :=
  match looped with
  | (st1, Ok _) => (set_discoveryStatus (set_lastRun (Some now)) st1, Ok tt)
  | (st1, Throw e) => (set_discoveryStatus (set_error (Some (error_text e))) st1, Ok tt)
  end.

(** The state at the start of the upsert loop over [n] entries. *)
Definition sync_started (n : nat) (st : State) : State :=
  set_discoveryStatus (λ d, mkDiscoveryStatus (lastRun d) n [] None) st.

(** ** Reading a registry document *)

(** An entry the loop can register whatever the table holds: an object
    with text [name], [role] and [goal]. *)
Definition well_formed_entry (e : Json) : Prop :=
  ∃ n r g,
    prop "name" e = Some (JStr n) ∧ prop "role" e = Some (JStr r) ∧
    prop "goal" e = Some (JStr g).

Definition entry_name (e : Json) : string := interpolate (prop "name" e).

(** A row as the loop creates it from entry [e]. *)
Definition registered_from (e : Json) (a : Agent) : Prop :=
  prop "name" e = Some (JStr (agent_name a)) ∧
  prop "role" e = Some (JStr (role a)) ∧
  prop "goal" e = Some (JStr (goal a)) ∧
  systemPrompt a = "Auto-registered from Agent Card (" +:+ agent_name a +:+ ")" ∧
  tools a = [].

(** ** Reading a run of events *)

(** The task an event asks to resolve. *)
Definition targeted (e : Event) : option string :=
  match e with
  | Approve id _ _ | Reject id _ _ => Some id
  | _ => None
  end.

(** The payloads whose trace identifier the bus and the span store
    take: the [traceId] field is a string, or it is absent or falsy and
    an identifier is generated in its place. *)
Definition text_traceId (payload : Json) : bool :=
  match opt_prop "traceId" payload with
  | Some v => if truthy (Some v) then is_text v else true
  | None => true
  end.

(** The events that resolve a task of the table [known] whose trace
    identifier can be recorded. *)
Definition resolves (known : gmap string Task) (e : Event) : bool :=
  match targeted e with
  | Some id =>
      match known !! id with
      | Some t => text_traceId (inputPayload t)
      | None => false
      end
  | None => false
  end.

(** Among them, the approvals. *)
Definition publishes (known : gmap string Task) (e : Event) : bool :=
  match e with
  | Approve id _ _ => resolves known e
  | _ => false
  end.

(** The status event [e] leaves task [id] in, [s] being its status
    before. *)
Definition decision (id : string) (s : TaskStatus) (e : Event) : TaskStatus :=
  match e with
  | Approve id' _ _ => if decide (id' = id) then APPROVED else s
  | Reject id' _ _ => if decide (id' = id) then REJECTED else s
  | _ => s
  end.

(** Referential integrity of the store: the owner of every task is a
    row of the Agent table. *)
Definition owners_joined (st : State) : Prop :=
  ∀ id t, tasks st !! id = Some t → is_Some (agent_by_id (agentId t) (agents st)).

(** ** Sample data *)

Definition sample_uuid (n : nat) : string := "uuid-" +:+ pretty n.

Definition sample_agent : Agent :=
  mkAgent "agent-1" "Researcher" "research" "Answer questions"
    "You are a careful researcher" ["search"].

Definition sample_task (s : TaskStatus) (payload : Json) (created : Z) : Task :=
  mkTask "Summarize latest deployment logs for review" s payload created "agent-1".

(** Four tasks: no payload, a payload with a trace identifier, a
    payload whose trace identifier is the empty string, and a task that
    has already been approved. *)
Definition sample_store : State :=
  mkState [sample_agent]
    (<["task-1" := sample_task PENDING JNull 0]>
       (<["task-2" := sample_task PENDING (JObj [("traceId", JStr "trace-42")]) 100000]>
          (<["task-3" := sample_task PENDING (JObj [("traceId", JStr "")]) 300000]>
             (<["task-4" := sample_task APPROVED (JObj [("source", JStr "github")]) 50]> ∅))))
    [] [] initial_discoveryStatus 0.

(** The same store with a fifth task, whose payload carries a number
    as trace identifier. *)
Definition sample_store_numeric : State :=
  set_tasks <["task-5" := sample_task PENDING (JObj [("traceId", JNum 42)]) 200000]>
    sample_store.

(** A registry document listing the agent the store already has, and
    the state the process is in after a successful run over it. *)
Definition sample_card : Json :=
  JObj [("agents",
         JArr [JObj [("id", JStr "r-1"); ("name", JStr "Researcher");
                     ("role", JStr "research"); ("goal", JStr "Answer questions");
                     ("tools", JArr [])]])].

Definition sample_synced_store : State :=
  mkState (agents sample_store) (tasks sample_store) [] []
    (mkDiscoveryStatus (Some 1000) 1 ["Researcher"] None) 0.

(** A registry document whose second entry is [null]. *)
Definition sample_card_torn : Json :=
  JObj [("agents",
         JArr [JObj [("id", JStr "w-1"); ("name", JStr "Writer");
                     ("role", JStr "writing"); ("goal", JStr "Draft reports");
                     ("tools", JArr [])];
               JNull])].

(** Two spans of one trace, newest first: the first carries the empty
    string as [parentId], the second has none. *)
Definition sample_window : list TraceSpan :=
  [mkTraceSpan "span-2" "trace-A" (Some "") "orchestrator" "resume" "OK" 5 JNull 2000;
   mkTraceSpan "span-1" "trace-A" None "ingress" "webhook" "OK" 7 JNull 1000].

(** The first entry of the torn document. *)
Definition sample_writer_entry : Json :=
  JObj [("id", JStr "w-1"); ("name", JStr "Writer");
        ("role", JStr "writing"); ("goal", JStr "Draft reports");
        ("tools", JArr [])].

(** ** Frames *)

(** A relation between the state before and the state after that every
    run of a computation respects, whether it returns or throws. *)
Definition stable (R : relation State) {A} (m : M A) : Prop :=
  ∀ st, R st (m st).1.

(** What the background job leaves alone: it touches the Agent table,
    its own status and the identifier source only. *)
Definition draws_only (s s' : State) : Prop :=
  tasks s' = tasks s ∧ spans s' = spans s ∧ bus s' = bus s ∧ (drawn s ≤ drawn s')%nat.

(** * Properties *)

(** The identifiers drawn from [randomUUID()] are pairwise distinct and
    are never the empty string. *)
Hypothesis randomUUID_at_inj : Inj (=) (=) randomUUID_at.
Hypothesis randomUUID_at_nonempty : ∀ n, randomUUID_at n ≠ "".

(** ** Running the monad *)

Lemma run_bind {A B} (m : M A) (f : A → M B) st :
  (m ≫= f) st =
  match m st with
  | (st', Ok a) => f a st'
  | (st', Throw e) => (st', Throw e)
  end.
Proof. reflexivity. Qed.

Lemma run_ret {A} (a : A) st : (mret a : M A) st = (st, Ok a).
Proof. reflexivity. Qed.

Section Stable.
Context (R : relation State) `{!PreOrder R}.

Lemma stable_ret {A} (a : A) : stable R (mret a : M A).
Proof. intros st. simpl. reflexivity. Qed.

Lemma stable_throw {A} e : stable R (throw e : M A).
Proof. intros st. simpl. reflexivity. Qed.

Lemma stable_get_state : stable R get_state.
Proof. intros st. simpl. reflexivity. Qed.

Lemma stable_modify f : (∀ st, R st (f st)) → stable R (modify f).
Proof. intros Hf st. apply Hf. Qed.

Lemma stable_bind {A B} (m : M A) (f : A → M B) :
  stable R m → (∀ a, stable R (f a)) → stable R (m ≫= f).
Proof.
  intros Hm Hf st. rewrite run_bind. specialize (Hm st).
  destruct (m st) as [st' [a|e]]; simpl in *; [|done].
  etrans; [exact Hm|apply Hf].
Qed.

Lemma stable_try_catch {A} (m : M A) h :
  stable R m → (∀ e, stable R (h e)) → stable R (try_catch m h).
Proof.
  intros Hm Hh st. unfold try_catch. specialize (Hm st).
  destruct (m st) as [st' [a|e]]; simpl in *; [done|].
  etrans; [exact Hm|apply Hh].
Qed.

End Stable.

(** ** Task lifecycle *)

Lemma derive_traceId_run payload st :
  derive_traceId payload st =
  if truthy (opt_prop "traceId" payload)
  then (st, Ok (default JNull (opt_prop "traceId" payload)))
  else (set_drawn S st, Ok (JStr (randomUUID_at (drawn st)))).
Proof.
  unfold derive_traceId.
  destruct (opt_prop "traceId" payload) as [v|] eqn:Hv; [|done].
  by destruct (truthy (Some v)).
Qed.

(** The trace identifier an operation on [t] works with in state [st]. *)
Lemma derive_traceId_total payload st :
  ∃ traceId st', derive_traceId payload st = (st', Ok traceId) ∧
    agents st' = agents st ∧ tasks st' = tasks st ∧ spans st' = spans st ∧
    bus st' = bus st ∧ discoveryStatus st' = discoveryStatus st.
Proof.
  rewrite derive_traceId_run. destruct (truthy _); eauto 10.
Qed.

Lemma approve_run id t0 t1 st t :
  tasks st !! id = Some t →
  let row := mkTaskRow id (with_status APPROVED t) (agent_by_id (agentId t) (agents st)) in
  ∃ traceId st1,
    derive_traceId (inputPayload t) (set_tasks <[id := with_status APPROVED t]> st)
      = (st1, Ok traceId) ∧
    approve id t0 t1 st =
      if is_text traceId then
        let st2 := set_bus (λ l, l ++ [mkBusMessage (resumePayload row traceId) traceId]) st1 in
        match agent_by_id (agentId t) (agents st) with
        | Some a =>
            (set_spans (λ l, l ++ [mkSpanData traceId "acc" "approve_task" (t1 - t0)
                                     (span_metadata row (agent_name a))]) st2, Ok row)
        | None =>
            (st2, Throw (mkJsError TypeError "Cannot read properties of null (reading 'name')"))
        end
      else
        (st1, Throw (mkJsError TypeError "All attributes must be in the form of a string.")).
Proof.
  intros Ht row.
  destruct (derive_traceId_total (inputPayload t)
              (set_tasks <[id := with_status APPROVED t]> st)) as (traceId & st1 & Hd & _).
  exists traceId, st1. split; [done|].
  unfold approve, task_update. rewrite run_bind, Ht. cbn [with_status agentId row_task inputPayload].
  rewrite run_bind, Hd, run_bind. unfold publishMessage, traceSpan_create.
  cbn [msg_attr_traceId sd_traceId].
  destruct (is_text traceId); [|done].
  unfold task_agent_name. cbn [row_agent].
  by destruct (agent_by_id (agentId t) (agents st)).
Qed.

Lemma reject_run id t0 t1 st t :
  tasks st !! id = Some t →
  let row := mkTaskRow id (with_status REJECTED t) (agent_by_id (agentId t) (agents st)) in
  ∃ traceId st1,
    derive_traceId (inputPayload t) (set_tasks <[id := with_status REJECTED t]> st)
      = (st1, Ok traceId) ∧
    reject id t0 t1 st =
      match agent_by_id (agentId t) (agents st) with
      | Some a =>
          if is_text traceId then
            (set_spans (λ l, l ++ [mkSpanData traceId "acc" "reject_task" (t1 - t0)
                                     (span_metadata row (agent_name a))]) st1, Ok row)
          else
            (st1, Throw (mkJsError ValidationError
                           "Invalid value provided for argument traceId: expected String"))
      | None =>
          (st1, Throw (mkJsError TypeError "Cannot read properties of null (reading 'name')"))
      end.
Proof.
  intros Ht row.
  destruct (derive_traceId_total (inputPayload t)
              (set_tasks <[id := with_status REJECTED t]> st)) as (traceId & st1 & Hd & _).
  exists traceId, st1. split; [done|].
  unfold reject, task_update. rewrite run_bind, Ht. cbn [with_status agentId row_task inputPayload].
  rewrite run_bind, Hd. unfold task_agent_name, traceSpan_create. cbn [row_agent sd_traceId].
  destruct (agent_by_id (agentId t) (agents st)); [|done].
  by destruct (is_text traceId).
Qed.

Lemma approve_missing id t0 t1 st :
  tasks st !! id = None →
  approve id t0 t1 st = (st, Throw (mkJsError RecordNotFound "Record to update not found.")).
Proof. intros Ht. unfold approve, task_update. by rewrite run_bind, Ht. Qed.

Lemma reject_missing id t0 t1 st :
  tasks st !! id = None →
  reject id t0 t1 st = (st, Throw (mkJsError RecordNotFound "Record to update not found.")).
Proof. intros Ht. unfold reject, task_update. by rewrite run_bind, Ht. Qed.

Global Instance draws_only_preorder : PreOrder draws_only.
Proof.
  split.
  - intros s. unfold draws_only. auto.
  - intros s1 s2 s3 (?&?&?&?) (?&?&?&?). unfold draws_only.
    repeat split; try congruence. lia.
Qed.

Lemma text_column_pure col v st : (text_column col v st).1 = st.
Proof. unfold text_column. by repeat case_match. Qed.

Lemma member_pure k v st : (member k v st).1 = st.
Proof. unfold member. by repeat case_match. Qed.

Lemma stable_text_column R `{!PreOrder R} col v : stable R (text_column col v).
Proof. intros st. by rewrite text_column_pure. Qed.

Lemma stable_member R `{!PreOrder R} k v : stable R (member k v).
Proof. intros st. by rewrite member_pure. Qed.

Ltac stable_leaf :=
  first [ apply stable_ret | apply stable_throw | apply stable_get_state
        | apply stable_text_column | apply stable_member ]; apply _.
Ltac stable_seq := apply stable_bind; [apply _| |intros ?].

Lemma stable_update_status f : stable draws_only (update_status f).
Proof. apply stable_modify. intros st. unfold draws_only. simpl. auto. Qed.

Lemma stable_agent_create name r g prompt : stable draws_only (agent_create name r g prompt).
Proof.
  unfold agent_create.
  do 4 (stable_seq; [stable_leaf|]).
  case_match; [stable_leaf|].
  stable_seq.
  - intros st. unfold draws_only. simpl. auto with lia.
  - apply stable_modify. intros st. unfold draws_only. simpl. auto.
Qed.

Lemma stable_upsert_agent agent : stable draws_only (upsert_agent agent).
Proof.
  unfold upsert_agent, agent_findUnique.
  stable_seq; [stable_leaf|].
  stable_seq; [do 2 (stable_seq; [stable_leaf|]); stable_leaf|].
  stable_seq; [|apply stable_update_status].
  case_match; [stable_leaf|].
  do 2 (stable_seq; [stable_leaf|]).
  apply stable_agent_create.
Qed.

Lemma stable_upsert_all entries : stable draws_only (upsert_all entries).
Proof.
  induction entries as [|agent rest IH]; simpl.
  - stable_leaf.
  - stable_seq; [apply stable_upsert_agent|apply IH].
Qed.

Lemma stable_discoverAgents fetched now : stable draws_only (discoverAgents fetched now).
Proof.
  unfold discoverAgents.
  apply stable_try_catch; [apply _| |intros ?; apply stable_update_status].
  unfold discover_body. destruct fetched as [msg|res]; [stable_leaf|].
  destruct (negb (res_ok res)); [apply stable_update_status|].
  stable_seq.
  { intros st. unfold res_json. by destruct (resp_body res). }
  stable_seq; [stable_leaf|].
  case_match; [apply stable_update_status|].
  do 3 (stable_seq; [apply stable_update_status|]).
  stable_seq; [apply stable_upsert_all|apply stable_update_status].
Qed.

(** What approve does to an existing task.  The status update is
    committed first and stays whatever follows; the message is published
    when the derived trace identifier is a string, and the span recorded
    when moreover the owner is joined. *)
Lemma approve_effect id t0 t1 st t :
  tasks st !! id = Some t →
  let st' := (approve id t0 t1 st).1 in
  let row := mkTaskRow id (with_status APPROVED t) (agent_by_id (agentId t) (agents st)) in
  ∃ traceId,
    (derive_traceId (inputPayload t) st).2 = Ok traceId ∧
    tasks st' = <[id := with_status APPROVED t]> (tasks st) ∧
    agents st' = agents st ∧
    discoveryStatus st' = discoveryStatus st ∧
    drawn st' = drawn (derive_traceId (inputPayload t) st).1 ∧
    if is_text traceId then
      bus st' = bus st ++ [mkBusMessage (resumePayload row traceId) traceId] ∧
      match agent_by_id (agentId t) (agents st) with
      | Some a =>
          spans st' = spans st ++ [mkSpanData traceId "acc" "approve_task" (t1 - t0)
                                     (span_metadata row (agent_name a))] ∧
          (approve id t0 t1 st).2 = Ok row
      | None =>
          spans st' = spans st ∧
          (approve id t0 t1 st).2 =
            Throw (mkJsError TypeError "Cannot read properties of null (reading 'name')")
      end
    else
      bus st' = bus st ∧ spans st' = spans st ∧
      (approve id t0 t1 st).2 =
        Throw (mkJsError TypeError "All attributes must be in the form of a string.").
Proof.
  intros Ht st' row. subst st'.
  destruct (approve_run id t0 t1 st t Ht) as (traceId & st1 & Hd & ->).
  exists traceId. rewrite derive_traceId_run in Hd |- *.
  destruct (truthy _); simplify_eq; cbn.
  - destruct (is_text _); cbn; [|done].
    by destruct (agent_by_id (agentId t) (agents st)).
  - by destruct (agent_by_id (agentId t) (agents st)).
Qed.

(** What reject does to an existing task: the same, without the
    message; the span is refused when the derived trace identifier is
    not a string. *)
Lemma reject_effect id t0 t1 st t :
  tasks st !! id = Some t →
  let st' := (reject id t0 t1 st).1 in
  let row := mkTaskRow id (with_status REJECTED t) (agent_by_id (agentId t) (agents st)) in
  ∃ traceId,
    (derive_traceId (inputPayload t) st).2 = Ok traceId ∧
    tasks st' = <[id := with_status REJECTED t]> (tasks st) ∧
    agents st' = agents st ∧
    discoveryStatus st' = discoveryStatus st ∧
    drawn st' = drawn (derive_traceId (inputPayload t) st).1 ∧
    bus st' = bus st ∧
    match agent_by_id (agentId t) (agents st) with
    | Some a =>
        if is_text traceId then
          spans st' = spans st ++ [mkSpanData traceId "acc" "reject_task" (t1 - t0)
                                     (span_metadata row (agent_name a))] ∧
          (reject id t0 t1 st).2 = Ok row
        else
          spans st' = spans st ∧
          (reject id t0 t1 st).2 =
            Throw (mkJsError ValidationError
                     "Invalid value provided for argument traceId: expected String")
    | None =>
        spans st' = spans st ∧
        (reject id t0 t1 st).2 =
          Throw (mkJsError TypeError "Cannot read properties of null (reading 'name')")
    end.
Proof.
  intros Ht st' row. subst st'.
  destruct (reject_run id t0 t1 st t Ht) as (traceId & st1 & Hd & ->).
  exists traceId. rewrite derive_traceId_run in Hd |- *.
  destruct (truthy _); simplify_eq; cbn;
    destruct (agent_by_id (agentId t) (agents st)); cbn; try done.
  by destruct (is_text _).
Qed.

(** The derived trace identifier is a string exactly when the payload's
    is one, or is absent or falsy. *)
Lemma derive_traceId_text payload st traceId :
  (derive_traceId payload st).2 = Ok traceId →
  is_text traceId = text_traceId payload.
Proof.
  rewrite derive_traceId_run. unfold text_traceId.
  destruct (opt_prop "traceId" payload) as [v|] eqn:Hv; [|by intros [= <-]].
  destruct (truthy (Some v)); by intros [= <-].
Qed.

Lemma derive_traceId_drawn payload st :
  (drawn st ≤ drawn (derive_traceId payload st).1)%nat.
Proof. rewrite derive_traceId_run. destruct (truthy _); simpl; lia. Qed.

Lemma handle_drawn st e : (drawn st ≤ drawn (handle st e))%nat.
Proof.
  destruct e as [id t0 t1|id t0 t1|fetched now| | | | | |]; simpl; try lia.
  - destruct (tasks st !! id) as [t|] eqn:Ht.
    + destruct (approve_effect id t0 t1 st t Ht) as (? & _ & _ & _ & _ & -> & _).
      apply derive_traceId_drawn.
    + by rewrite approve_missing.
  - destruct (tasks st !! id) as [t|] eqn:Ht.
    + destruct (reject_effect id t0 t1 st t Ht) as (? & _ & _ & _ & _ & -> & _).
      apply derive_traceId_drawn.
    + by rewrite reject_missing.
  - apply (stable_discoverAgents fetched now st).
Qed.

Lemma run_drawn es : ∀ st, (drawn st ≤ drawn (run st es))%nat.
Proof.
  induction es as [|e es IH]; intros st; simpl; [lia|].
  etrans; [apply (handle_drawn st e)|apply IH].
Qed.

Lemma with_status_same t : with_status (status t) t = t.
Proof. by destruct t. Qed.

(** One event moves a task to APPROVED, to REJECTED, or not at all, and
    touches nothing but its status. *)
Lemma handle_task st e id t :
  tasks st !! id = Some t →
  ∃ s, tasks (handle st e) !! id = Some (with_status s t) ∧
       (s = status t ∨ s = APPROVED ∨ s = REJECTED).
Proof.
  intros Ht.
  assert (∃ s, tasks st !! id = Some (with_status s t) ∧
               (s = status t ∨ s = APPROVED ∨ s = REJECTED)) as Hsame.
  { exists (status t). rewrite with_status_same. auto. }
  destruct e as [id' t0 t1|id' t0 t1|fetched now| | | | | |]; simpl; try done.
  - destruct (tasks st !! id') as [t'|] eqn:Ht'; [|by rewrite approve_missing].
    destruct (approve_effect id' t0 t1 st t' Ht') as (? & _ & -> & _).
    destruct (decide (id' = id)) as [->|Hne].
    + rewrite lookup_insert_eq. simplify_eq. eauto.
    + by rewrite lookup_insert_ne.
  - destruct (tasks st !! id') as [t'|] eqn:Ht'; [|by rewrite reject_missing].
    destruct (reject_effect id' t0 t1 st t' Ht') as (? & _ & -> & _).
    destruct (decide (id' = id)) as [->|Hne].
    + rewrite lookup_insert_eq. simplify_eq. eauto.
    + by rewrite lookup_insert_ne.
  - destruct (stable_discoverAgents fetched now st) as (-> & _). done.
Qed.

Lemma with_status_twice s s' t : with_status s (with_status s' t) = with_status s t.
Proof. done. Qed.

Lemma run_task es : ∀ st id t,
  tasks st !! id = Some t →
  ∃ s, tasks (run st es) !! id = Some (with_status s t) ∧
       (s = status t ∨ s = APPROVED ∨ s = REJECTED).
Proof.
  induction es as [|e es IH]; intros st id t Ht; simpl.
  - exists (status t). rewrite with_status_same. auto.
  - destruct (handle_task st e id t Ht) as (s1 & H1 & Hs1).
    destruct (IH _ _ _ H1) as (s2 & H2 & Hs2).
    exists s2. rewrite with_status_twice in H2. split; [done|].
    simpl in Hs2. destruct Hs2 as [->|Hs2]; auto.
Qed.

(** C1 (amended).  No sequence of operations of this core (approve,
    reject, discovery, queries) ever returns a task to PENDING: a task
    that has left PENDING stays APPROVED or REJECTED, and nothing but
    its status is ever changed.  Approve and reject check no
    precondition on the current status: whatever it is, also a terminal
    one, after approve the task is APPROVED and after reject it is
    REJECTED. *)
Theorem status_never_returns_to_pending es st id t :
  tasks st !! id = Some t →
  ∃ t',
    tasks (run st es) !! id = Some t' ∧
    (status t ≠ PENDING → status t' ≠ PENDING) ∧
    (description t' = description t ∧ inputPayload t' = inputPayload t ∧
     createdAt t' = createdAt t ∧ agentId t' = agentId t) ∧
    (∀ t0 t1, status <$> tasks (handle (run st es) (Approve id t0 t1)) !! id = Some APPROVED) ∧
    (∀ t0 t1, status <$> tasks (handle (run st es) (Reject id t0 t1)) !! id = Some REJECTED).
Proof.
  intros Ht. destruct (run_task es st id t Ht) as (s & Hrun & Hs).
  exists (with_status s t). split; [done|]. split; [|split; [done|]].
  - simpl. intros Hne. destruct Hs as [->|[->| ->]]; done.
  - split; intros t0 t1; simpl.
    + destruct (approve_effect id t0 t1 _ _ Hrun) as (? & _ & -> & _).
      by rewrite lookup_insert_eq.
    + destruct (reject_effect id t0 t1 _ _ Hrun) as (? & _ & -> & _).
      by rewrite lookup_insert_eq.
Qed.

(** C3 (amended).  For every existing task, approve sets its status to
    APPROVED and changes nothing else of the task.  When
    inputPayload.traceId is a non-empty string, it publishes exactly one
    resume signal, whose payload is {type: "RESUME", taskId, agentId,
    traceId} with the same traceId as attribute, traceId being that
    string.  When the field is absent or falsy (null payload, null, the
    empty string), it publishes exactly one such signal under a freshly
    generated identifier, distinct from the one generated by any later
    approve.  When the field is truthy but not a string (a number, say),
    the bus client refuses the attribute: the status stays APPROVED,
    nothing is published, no span is recorded and the request fails. *)
Theorem approve_publishes_resume id t0 t1 st t :
  tasks st !! id = Some t →
  let st' := (approve id t0 t1 st).1 in
  let signal traceId :=
    mkBusMessage
      (JObj [("type", JStr "RESUME"); ("taskId", JStr id);
             ("agentId", JStr (agentId t)); ("traceId", traceId)])
      traceId in
  (∃ t', tasks st' !! id = Some t' ∧ status t' = APPROVED ∧
         description t' = description t ∧ inputPayload t' = inputPayload t ∧
         createdAt t' = createdAt t ∧ agentId t' = agentId t) ∧
  (∀ s, opt_prop "traceId" (inputPayload t) = Some (JStr s) → s ≠ "" →
        bus st' = bus st ++ [signal (JStr s)]) ∧
  (truthy (opt_prop "traceId" (inputPayload t)) = false →
     bus st' = bus st ++ [signal (JStr (randomUUID_at (drawn st)))] ∧
     ∀ es id2 a b t2,
       tasks (run st' es) !! id2 = Some t2 →
       truthy (opt_prop "traceId" (inputPayload t2)) = false →
       ∃ m2, last (bus (approve id2 a b (run st' es)).1) = Some m2 ∧
             msg_attr_traceId m2 ≠ JStr (randomUUID_at (drawn st))) ∧
  (∀ v, opt_prop "traceId" (inputPayload t) = Some v →
        truthy (Some v) = true → is_text v = false →
        bus st' = bus st ∧ spans st' = spans st ∧
        ∃ e, (approve id t0 t1 st).2 = Throw e ∧ err_kind e = TypeError).
Proof.
  intros Ht st' signal.
  destruct (approve_effect id t0 t1 st t Ht)
    as (traceId & Hd & Htasks & _ & _ & Hdrawn & Heffect).
  fold st' in Htasks, Hdrawn, Heffect.
  rewrite derive_traceId_run in Hd, Hdrawn.
  split; [|split; [|split]].
  - exists (with_status APPROVED t). by rewrite Htasks, lookup_insert_eq.
  - intros s Hs Hne. rewrite Hs in Hd. simpl in Hd.
    rewrite bool_decide_eq_false_2 in Hd by done. simpl in Hd.
    injection Hd as <-. simpl in Heffect. by destruct Heffect as [-> _].
  - intros Hfalsy. rewrite Hfalsy in Hd, Hdrawn. simpl in Hd, Hdrawn.
    injection Hd as <-. simpl in Heffect. destruct Heffect as [Hbus _].
    split; [done|].
    intros es id2 a b t2 Ht2 Hfalsy2.
    destruct (approve_effect id2 a b _ t2 Ht2)
      as (traceId2 & Hd2 & _ & _ & _ & _ & Heffect2).
    rewrite derive_traceId_run, Hfalsy2 in Hd2. simpl in Hd2.
    injection Hd2 as <-. simpl in Heffect2. destruct Heffect2 as [Hbus2 _].
    eexists. rewrite Hbus2, last_snoc. split; [done|]. simpl.
    intros [=Heq]. apply randomUUID_at_inj in Heq.
    pose proof (run_drawn es st') as Hle. lia.
  - intros v Hv Htruthy Htext. rewrite Hv, Htruthy in Hd. simpl in Hd.
    injection Hd as <-. rewrite Htext in Heffect.
    destruct Heffect as (-> & -> & ->). eauto.
Qed.

(** C4 (amended).  For every existing task, reject sets its status to
    REJECTED, changes nothing else of the task and publishes nothing on
    the message bus.  It derives the traceId by the expression approve
    uses.  When that traceId is a string (always so when it is
    generated) and the owning agent is joined, reject records the span
    approve records (service "acc", durationMs from entry to record,
    metadata {taskId, agentName}) under its own operation name.  When
    inputPayload.traceId is truthy but not a string, the span store
    refuses the row: the status stays REJECTED, no span is recorded and
    the request fails, as approve records none either. *)
Theorem reject_records_without_publishing id t0 t1 st t :
  tasks st !! id = Some t →
  let st' := (reject id t0 t1 st).1 in
  (∃ t', tasks st' !! id = Some t' ∧ status t' = REJECTED ∧
         description t' = description t ∧ inputPayload t' = inputPayload t ∧
         createdAt t' = createdAt t ∧ agentId t' = agentId t) ∧
  bus st' = bus st ∧
  ∃ traceId,
    (derive_traceId (inputPayload t) st).2 = Ok traceId ∧
    (is_text traceId = true →
       ∃ m, bus (approve id t0 t1 st).1 = bus st ++ [m] ∧ msg_attr_traceId m = traceId) ∧
    ∀ a, agent_by_id (agentId t) (agents st) = Some a →
      let metadata := JObj [("taskId", JStr id); ("agentName", JStr (agent_name a))] in
      (is_text traceId = true →
         spans st' = spans st ++ [mkSpanData traceId "acc" "reject_task" (t1 - t0) metadata] ∧
         spans (approve id t0 t1 st).1 =
           spans st ++ [mkSpanData traceId "acc" "approve_task" (t1 - t0) metadata]) ∧
      (is_text traceId = false →
         spans st' = spans st ∧ spans (approve id t0 t1 st).1 = spans st ∧
         ∃ e, (reject id t0 t1 st).2 = Throw e ∧ err_kind e = ValidationError).
Proof.
  intros Ht st'.
  destruct (reject_effect id t0 t1 st t Ht)
    as (traceId & Hd & Htasks & _ & _ & _ & Hbus & Hspans).
  destruct (approve_effect id t0 t1 st t Ht)
    as (traceId' & Hd' & _ & _ & _ & _ & Heffect').
  fold st' in Htasks, Hbus, Hspans.
  assert (traceId' = traceId) as -> by congruence.
  split; [|split; [done|]].
  { exists (with_status REJECTED t). by rewrite Htasks, lookup_insert_eq. }
  exists traceId. split; [done|]. split.
  - intros Htext. rewrite Htext in Heffect'. destruct Heffect' as [-> _]. eauto.
  - intros a Ha metadata. rewrite Ha in Hspans, Heffect'. split; intros Htext.
    + rewrite Htext in Hspans, Heffect'.
      destruct Hspans as [-> _], Heffect' as (_ & -> & _). done.
    + rewrite Htext in Hspans, Heffect'.
      destruct Hspans as [-> ->], Heffect' as (_ & -> & _). eauto.
Qed.


(** ** Zombie detection *)

Global Instance createdAt_asc_total : Total createdAt_asc.
Proof. intros a b. unfold createdAt_asc. lia. Qed.
Global Instance createdAt_asc_trans : Transitive createdAt_asc.
Proof. intros a b c. unfold createdAt_asc. lia. Qed.
Global Instance createdAt_desc_total : Total createdAt_desc.
Proof. intros a b. unfold createdAt_desc. lia. Qed.
Global Instance createdAt_desc_trans : Transitive createdAt_desc.
Proof. intros a b c. unfold createdAt_desc. lia. Qed.

Section FindMany.
Context (P : Task → Prop) `{∀ t, Decision (P t)}.
Context (order : relation TaskRow) `{∀ a b, Decision (order a b)}.

Lemma task_findMany_perm st :
  task_findMany P order st ≡ₚ
  join_agent st <$> filter (λ p : string * Task, P p.2) (map_to_list (tasks st)).
Proof. apply merge_sort_Permutation. Qed.

Lemma task_findMany_elem st row :
  row ∈ task_findMany P order st ↔
  ∃ id t, tasks st !! id = Some t ∧ P t ∧ row = join_agent st (id, t).
Proof.
  rewrite task_findMany_perm, list_elem_of_fmap. split.
  - intros ([id t] & -> & Hin). apply list_elem_of_filter in Hin as [HP Hin].
    apply elem_of_map_to_list in Hin. eauto.
  - intros (id & t & Ht & HP & ->). exists (id, t). split; [done|].
    apply list_elem_of_filter. split; [done|]. by apply elem_of_map_to_list.
Qed.

Lemma task_findMany_ids st :
  row_id <$> task_findMany P order st ≡ₚ
  (filter (λ p : string * Task, P p.2) (map_to_list (tasks st))).*1.
Proof.
  rewrite task_findMany_perm, <- list_fmap_compose. done.
Qed.

Lemma task_findMany_NoDup st : NoDup (row_id <$> task_findMany P order st).
Proof.
  rewrite task_findMany_ids.
  eapply sublist_NoDup; [apply (NoDup_fst_map_to_list (tasks st))|].
  apply fmap_sublist, sublist_filter.
Qed.

Lemma task_findMany_length st :
  length (task_findMany P order st) =
  length (filter (λ p : string * Task, P p.2) (map_to_list (tasks st))).
Proof. by rewrite task_findMany_perm, length_fmap. Qed.

Lemma task_findMany_sorted `{!Transitive order, !Total order} st :
  StronglySorted order (task_findMany P order st).
Proof. apply StronglySorted_merge_sort; apply _. Qed.

End FindMany.

Lemma annotate_rows now (l : list TaskRow) : tv_row <$> (annotate now <$> l) = l.
Proof. induction l as [|row l IH]; [done|]. cbn. by rewrite IH. Qed.

(** C7.  For every PENDING task returned by GET /tasks, isZombie is
    true if and only if now − createdAt strictly exceeds 5 minutes: at
    an age of exactly 5 minutes it is false, at 5 minutes 1 second it is
    true.  The annotation filters nothing out: every PENDING task of the
    store is listed, once. *)
Theorem isZombie_iff_older_than_threshold now st :
  let resp := get_tasks now st in
  (∀ v, v ∈ tasks_listed resp →
     let age := now - createdAt (row_task (tv_row v)) in
     status (row_task (tv_row v)) = PENDING ∧
     (isZombie v = true ↔ age > 5 * 60 * 1000) ∧
     (age = 5 * 60 * 1000 → isZombie v = false) ∧
     (age = 5 * 60 * 1000 + 1000 → isZombie v = true)) ∧
  (∀ id t, tasks st !! id = Some t → status t = PENDING →
     ∃ v, v ∈ tasks_listed resp ∧ row_id (tv_row v) = id ∧ row_task (tv_row v) = t) ∧
  NoDup (row_id ∘ tv_row <$> tasks_listed resp) ∧
  length (tasks_listed resp) =
    length (filter (λ p : string * Task, status p.2 = PENDING) (map_to_list (tasks st))) ∧
  tasks_count resp = length (tasks_listed resp).
Proof.
  intros resp. subst resp. unfold get_tasks. cbn [tasks_listed tasks_count].
  split; [|split; [|split; [|split]]].
  - intros v Hv. apply list_elem_of_fmap in Hv as (row & -> & Hrow).
    apply task_findMany_elem in Hrow as (id & t & Ht & HP & ->).
    unfold annotate, ZOMBIE_THRESHOLD_MS. cbn.
    split; [done|]. rewrite bool_decide_eq_true, bool_decide_eq_false.
    repeat split; lia.
  - intros id t Ht HP. exists (annotate now (join_agent st (id, t))).
    split; [|done]. apply list_elem_of_fmap_2, task_findMany_elem. eauto.
  - rewrite list_fmap_compose, annotate_rows. apply task_findMany_NoDup.
  - by rewrite length_fmap, task_findMany_length.
  - by rewrite length_fmap.
Qed.

(** C8.  For every store state, GET /tasks/zombies returns exactly the
    tasks whose status is PENDING and whose createdAt is strictly older
    than now minus the 5-minute threshold, each once and never a task of
    another status, sorted ascending by createdAt (oldest first). *)
Theorem zombies_exactly_stale_pending now st :
  let resp := get_zombies now st in
  (∀ id t,
     (∃ row, row ∈ zombies resp ∧ row_id row = id ∧ row_task row = t) ↔
     tasks st !! id = Some t ∧ status t = PENDING ∧ createdAt t < now - 5 * 60 * 1000) ∧
  NoDup (row_id <$> zombies resp) ∧
  StronglySorted (λ a b, createdAt (row_task a) ≤ createdAt (row_task b)) (zombies resp) ∧
  zombies_count resp = length (zombies resp).
Proof.
  intros resp. subst resp. unfold get_zombies. cbn [zombies zombies_count].
  split; [|split; [|split]].
  - intros id t. split.
    + intros (row & Hrow & <- & <-).
      apply task_findMany_elem in Hrow as (id & t & Ht & [HP Hlt] & ->).
      unfold ZOMBIE_THRESHOLD_MS in Hlt. done.
    + intros (Ht & HP & Hlt). exists (join_agent st (id, t)).
      split; [|done]. apply task_findMany_elem. eauto 10.
  - apply task_findMany_NoDup.
  - apply (task_findMany_sorted _ createdAt_asc).
  - done.
Qed.

(** ** Trace correlation *)

Lemma assoc_elem {V} k (g : V) (m : OrderedMap V) :
  NoDup m.*1 → (k, g) ∈ m → assoc k m = Some g.
Proof.
  induction m as [|[k' g'] m IH]; intros Hnd Hin; [by apply elem_of_nil in Hin|].
  cbn in Hnd. apply NoDup_cons in Hnd as [Hk' Hnd].
  apply elem_of_cons in Hin as [[= -> ->]|Hin]; simpl.
  - by rewrite decide_True.
  - rewrite decide_False; [by apply IH|].
    intros ->. apply Hk'. apply list_elem_of_fmap. by exists (k, g).
Qed.

Lemma assoc_None_keys {V} k (m : OrderedMap V) : assoc k m = None ↔ k ∉ m.*1.
Proof.
  induction m as [|[k' g'] m IH]; simpl.
  - split; [intros _; apply not_elem_of_nil|done].
  - rewrite not_elem_of_cons. destruct (decide (k' = k)) as [->|Hne].
    + split; [done|]. intros [? _]. done.
    + rewrite IH. split; [intros ?; split; [congruence|done]|intros [_ ?]; done].
Qed.

Lemma om_set_keys_fresh {V} k (v : V) m : assoc k m = None → (om_set k v m).*1 = m.*1 ++ [k].
Proof.
  induction m as [|[k' g'] m IH]; simpl; [done|].
  destruct (decide (k' = k)); [done|]. intros Hm. cbn. by rewrite IH.
Qed.

Lemma assoc_om_set {V} k (v : V) m k' :
  assoc k' (om_set k v m) = if decide (k = k') then Some v else assoc k' m.
Proof.
  induction m as [|[k0 g0] m IH]; simpl.
  - by destruct (decide (k = k')).
  - destruct (decide (k0 = k)) as [->|Hne]; simpl.
    + by destruct (decide (k = k')).
    + destruct (decide (k0 = k')) as [->|Hne'].
      * by rewrite decide_False by done.
      * done.
Qed.

Lemma om_push_keys {V} k (x : V) m : (om_push k x m).*1 = m.*1.
Proof.
  induction m as [|[k' g'] m IH]; simpl; [done|].
  destruct (decide (k' = k)); cbn; [done|]. by rewrite IH.
Qed.

Lemma assoc_om_push {V} k (x : V) m k' :
  assoc k' (om_push k x m) =
  if decide (k = k') then (λ g, g ++ [x]) <$> assoc k m else assoc k' m.
Proof.
  induction m as [|[k0 g0] m IH]; simpl.
  - by destruct (decide (k = k')).
  - destruct (decide (k0 = k)) as [->|Hne]; simpl.
    + destruct (decide (k = k')) as [->|Hne']; [done|]. done.
    + rewrite IH. destruct (decide (k0 = k')) as [->|Hne']; [|done].
      by rewrite decide_False by done.
Qed.

Lemma group_step_keys m span : NoDup m.*1 → NoDup (group_step m span).*1.
Proof.
  intros Hnd. unfold group_step, om_has. rewrite om_push_keys.
  case_bool_decide as Hhas; [done|].
  assert (assoc (traceId span) m = None) as Hnone.
  { destruct (assoc _ m) eqn:?; [|done]. destruct Hhas. eauto. }
  rewrite om_set_keys_fresh by done.
  apply NoDup_app. split; [done|]. split; [|apply NoDup_singleton].
  intros k Hk ->%list_elem_of_singleton. by apply assoc_None_keys in Hnone.
Qed.

Lemma assoc_group_step m span k :
  assoc k (group_step m span) =
  if decide (traceId span = k) then Some (default [] (assoc k m) ++ [span])
  else assoc k m.
Proof.
  unfold group_step, om_has. rewrite assoc_om_push.
  destruct (decide (traceId span = k)) as [->|Hne].
  - case_bool_decide as Hhas.
    + destruct Hhas as [g ->]. done.
    + rewrite assoc_om_set, decide_True by done.
      destruct (assoc _ m) eqn:?; [|done]. destruct Hhas. eauto.
  - case_bool_decide; [done|]. by rewrite assoc_om_set, decide_False.
Qed.

Lemma group_fold window : ∀ m,
  NoDup m.*1 →
  NoDup (fold_left group_step window m).*1 ∧
  ∀ k, assoc k (fold_left group_step window m) =
       match assoc k m with
       | Some g => Some (g ++ spans_of k window)
       | None => match spans_of k window with [] => None | found => Some found end
       end.
Proof.
  induction window as [|span window IH]; intros m Hnd; simpl.
  - split; [done|]. intros k. unfold spans_of. rewrite filter_nil.
    destruct (assoc k m); [by rewrite app_nil_r|done].
  - destruct (IH (group_step m span) (group_step_keys m span Hnd)) as [Hnd' Hassoc].
    split; [done|]. intros k. rewrite Hassoc, assoc_group_step. unfold spans_of.
    rewrite filter_cons. destruct (decide (traceId span = k)) as [<-|Hne]; [|done].
    destruct (assoc (traceId span) m); simpl; [by rewrite <- app_assoc|done].
Qed.

(** Every entry of the map holds the spans of its trace, in query
    order, and at least one. *)
Lemma group_spans_entry window k g :
  (k, g) ∈ group_spans window → g = spans_of k window ∧ g ≠ [].
Proof.
  intros Hin. destruct (group_fold window [] (NoDup_nil_2)) as [Hnd Hassoc].
  apply (assoc_elem _ _ _ Hnd) in Hin. fold (group_spans window) in Hassoc.
  rewrite Hassoc in Hin. simpl in Hin.
  destruct (spans_of k window) eqn:Hf; simplify_eq. done.
Qed.

Lemma slice0_elem {A} n (l : list A) x : x ∈ slice0 n l → x ∈ l.
Proof.
  unfold slice0. destruct (0 <=? n); intros Hin;
    eapply elem_of_sublist; eauto using sublist_take.
Qed.

Lemma map_result_ok {A B} (f : A → Result B) (l : list A) :
  (∀ x, x ∈ l → ∃ y, f x = Ok y) →
  ∃ ys, map_result f l = Ok ys ∧ ∀ y, y ∈ ys → ∃ x, x ∈ l ∧ f x = Ok y.
Proof.
  induction l as [|x l IH]; intros Hok; simpl.
  - exists []. split; [done|]. intros y Hy. by apply elem_of_nil in Hy.
  - destruct (Hok x) as [y Hy]; [by left|]. rewrite Hy.
    destruct IH as (ys & -> & Hys); [intros; apply Hok; by right|].
    exists (y :: ys). split; [done|]. intros y' [->|Hin]%elem_of_cons.
    + exists x. split; [by left|done].
    + destruct (Hys y' Hin) as (x' & ? & ?). exists x'. split; [by right|done].
Qed.

Lemma find_first {A} (f : A → bool) (l : list A) r :
  List.find f l = Some r → first_with (λ x, f x = true) l r.
Proof.
  induction l as [|x l IH]; simpl; [done|].
  destruct (f x) eqn:Hx.
  - intros [= ->]. exists [], l. auto.
  - intros (pre & post & -> & Hr & Hpre)%IH. exists (x :: pre), post.
    split; [done|]. split; [done|]. constructor; [congruence|done].
Qed.

Lemma find_none {A} (f : A → bool) (l : list A) :
  List.find f l = None → Forall (λ x, ¬ f x = true) l.
Proof.
  induction l as [|x l IH]; simpl; [constructor|].
  destruct (f x) eqn:Hx; [done|]. intros ?%IH. constructor; [congruence|done].
Qed.

Lemma falsy_parent_unset s :
  negb (truthy (parentId_value s)) = true ↔ unset_parent s.
Proof.
  unfold parentId_value, unset_parent. destruct (parentId s) as [p|]; simpl.
  - rewrite negb_involutive, bool_decide_eq_true. split; [intros ->; auto|].
    intros [|[= ->]]; done.
  - split; auto.
Qed.

Lemma find_root_spec spans root :
  find_root spans = Some root → root_among unset_parent spans root.
Proof.
  unfold find_root. destruct (List.find _ spans) as [r|] eqn:Hfind.
  - intros [= ->]. left. apply find_first in Hfind as (pre & post & -> & Hr & Hpre).
    exists pre, post. split; [done|]. split; [by apply falsy_parent_unset|].
    eapply Forall_impl; [exact Hpre|]. intros x Hx ?%falsy_parent_unset. done.
  - intros Hhead. right. split; [|done]. apply find_none in Hfind.
    eapply Forall_impl; [exact Hfind|]. intros x Hx ?%falsy_parent_unset. done.
Qed.

Lemma hasError_spec spans :
  hasError spans = true ↔ ∃ x, x ∈ spans ∧ span_status x = "ERROR".
Proof.
  unfold hasError. rewrite existsb_exists. split.
  - intros (x & Hin & Hx). exists x. rewrite <- list_elem_of_In in Hin.
    by apply bool_decide_eq_true in Hx.
  - intros (x & Hin & Hx). exists x. rewrite <- list_elem_of_In.
    by rewrite bool_decide_eq_true.
Qed.

Lemma summarize_spec k spans summary :
  summarize (k, spans) = Ok summary →
  ts_traceId summary = k ∧
  ts_spans summary = span_view <$> spans ∧
  spanCount summary = length spans ∧
  ts_status summary = (if hasError spans then "ERROR" else "OK") ∧
  ∃ root, find_root spans = Some root ∧
    rootService summary = service root ∧ rootOperation summary = operation root ∧
    ts_startedAt summary = startedAt root ∧ totalDurationMs summary = durationMs root.
Proof.
  unfold summarize. destruct (find_root spans) as [root|]; [|done].
  intros [= <-]. cbn. eauto 10.
Qed.

Lemma summarize_nonempty k spans : spans ≠ [] → ∃ summary, summarize (k, spans) = Ok summary.
Proof.
  intros Hne. unfold summarize, find_root.
  destruct (List.find _ spans); [eauto|].
  destruct spans; [done|]. simpl. eauto.
Qed.

(** C9 (amended).  For every fetched span window the correlator returns
    a response, and each of its trace summaries, read against the spans
    of its trace in query order, satisfies: the root span is the first
    span whose parentId is null or the empty string, falling back to the
    first span when no span has such a parentId; status is ERROR if and
    only if at least one span of the trace has status ERROR, else OK;
    totalDurationMs is the root span's own durationMs. *)
Theorem trace_summary_root_and_status q window :
  ∃ resp, get_traces q window = Ok resp ∧
    ∀ summary, summary ∈ traces resp →
      let spans := spans_of (ts_traceId summary) window in
      ts_spans summary = span_view <$> spans ∧
      (∃ root, root_among unset_parent spans root ∧
         rootService summary = service root ∧
         rootOperation summary = operation root ∧
         ts_startedAt summary = startedAt root ∧
         totalDurationMs summary = durationMs root) ∧
      (ts_status summary = "ERROR" ↔ ∃ x, x ∈ spans ∧ span_status x = "ERROR") ∧
      (ts_status summary = "OK" ↔ ¬ ∃ x, x ∈ spans ∧ span_status x = "ERROR").
Proof.
  unfold get_traces.
  destruct (map_result_ok summarize (slice0 (traces_limit q) (group_spans window)))
    as (summaries & -> & Hsummaries).
  { intros [k g] Hin%slice0_elem. apply group_spans_entry in Hin as [_ Hne].
    by apply summarize_nonempty. }
  eexists. split; [done|]. cbn [traces]. intros summary Hin.
  destruct (Hsummaries summary Hin) as ([k g] & Hentry%slice0_elem & Hsum).
  apply group_spans_entry in Hentry as [-> _].
  apply summarize_spec in Hsum as (-> & Hspans & _ & Hstatus & root & Hroot & ? & ? & ? & ?).
  cbn zeta. split; [done|]. split.
  - exists root. split; [by apply find_root_spec|done].
  - rewrite Hstatus, <- hasError_spec.
    destruct (hasError (spans_of k window)); split; split; done.
Qed.

(** ** Agent discovery *)

Lemma upsert_agent_run agent st :
  upsert_agent agent st =
  match agent with
  | JNull =>
      (st, Throw (mkJsError TypeError "Cannot read properties of null (reading 'name')"))
  | _ =>
      match prop "name" agent with
      | Some (JStr n) =>
          match agent_by_name n (agents st) with
          | Some _ => (synced_more [n] st, Ok tt)
          | None =>
              match prop "role" agent, prop "goal" agent with
              | Some (JStr r), Some (JStr g) =>
                  (synced_more [n]
                     (set_agents
                        (λ l, l ++ [mkAgent (randomUUID_at (drawn st)) n r g
                                      ("Auto-registered from Agent Card (" +:+ n +:+ ")") []])
                        (set_drawn S st)), Ok tt)
              | Some (JStr r), _ =>
                  (st, Throw (mkJsError ValidationError "Invalid value for argument `goal`"))
              | _, _ =>
                  (st, Throw (mkJsError ValidationError "Invalid value for argument `role`"))
              end
          end
      | _ => (st, Throw (mkJsError ValidationError "Invalid value for argument `name`"))
      end
  end.
Proof.
  unfold upsert_agent, agent_findUnique, agent_create, member, text_column, get_state,
    randomUUID, update_status, modify, throw, mbind, M_bind, mret, M_ret.
  destruct agent; try done.
  all: destruct (prop "name" _) as [[| | |n| |]|]; try done.
  all: cbn -[prop].
  all: destruct (agent_by_name n (agents st)) eqn:Hn; cbn -[prop]; [done|].
  all: destruct (prop "role" _) as [[| | |r| |]|]; try done.
  all: destruct (prop "goal" _) as [[| | |g| |]|]; try done.
  all: by rewrite Hn.
Qed.

Lemma agent_by_name_app n l l' :
  agent_by_name n (l ++ l') =
  match agent_by_name n l with
  | Some a => Some a
  | None => agent_by_name n l'
  end.
Proof.
  unfold agent_by_name. induction l as [|a l IH]; simpl; [done|].
  by destruct (bool_decide (agent_name a = n)).
Qed.

Lemma agent_by_name_None n l : agent_by_name n l = None ↔ n ∉ agent_name <$> l.
Proof.
  unfold agent_by_name. induction l as [|a l IH]; simpl.
  - split; [intros _; apply not_elem_of_nil|done].
  - rewrite not_elem_of_cons. case_bool_decide as Ha.
    + split; [done|]. intros [? _]. done.
    + rewrite IH. split; [intros ?; split; [congruence|done]|intros [_ ?]; done].
Qed.

Lemma registered_nil st : registered [] st = st.
Proof.
  destruct st. unfold registered, set_agents, set_drawn. cbn.
  by rewrite app_nil_r.
Qed.

Lemma synced_more_nil st : synced_more [] st = st.
Proof.
  destruct st as [? ? ? ? [] ?]. unfold synced_more, set_discoveryStatus, set_agentsSynced.
  cbn. by rewrite app_nil_r.
Qed.

Lemma synced_registered_twice n names c1 c2 st :
  synced_more names (registered c2 (synced_more [n] (registered c1 st))) =
  synced_more (n :: names) (registered (c1 ++ c2) st).
Proof.
  destruct st as [? ? ? ? [] ?].
  unfold synced_more, registered, set_discoveryStatus, set_agentsSynced, set_agents, set_drawn.
  cbn. rewrite <- !app_assoc, length_app. f_equal. lia.
Qed.

Lemma synced_more_twice n names st :
  synced_more names (synced_more [n] st) = synced_more (n :: names) st.
Proof.
  destruct st as [? ? ? ? [] ?].
  unfold synced_more, set_discoveryStatus, set_agentsSynced. cbn.
  by rewrite <- app_assoc.
Qed.

(** One iteration either throws and changes nothing, or pushes the name
    after creating at most one row, under a name the table lacked; run
    again on a table that has kept its rows, it does the same without
    creating anything. *)
Lemma upsert_agent_effect agent st :
  (∃ e, upsert_agent agent st = (st, Throw e) ∧
        ∀ st', agents st' = agents st → upsert_agent agent st' = (st', Throw e)) ∨
  (∃ n created,
     upsert_agent agent st = (synced_more [n] (registered created st), Ok tt) ∧
     (∀ a, a ∈ created → agent_by_name (agent_name a) (agents st) = None) ∧
     (n ∉ agent_name <$> agents st → agent_name <$> created = [n]) ∧
     (n ∈ agent_name <$> agents st → created = []) ∧
     ∀ st' more, agents st' = agents st ++ created ++ more →
       upsert_agent agent st' = (synced_more [n] st', Ok tt)).
Proof.
  rewrite upsert_agent_run.
  destruct agent as [| | | | |fields];
    try (left; eexists; split; [done|]; intros st' _; by rewrite upsert_agent_run).
  destruct (prop "name" (JObj fields)) as [[| | |n| |]|] eqn:Hname;
    try (left; eexists; split; [done|]; intros st' _; by rewrite upsert_agent_run, Hname).
  destruct (agent_by_name n (agents st)) as [a|] eqn:Hfound.
  { right. exists n, []. rewrite registered_nil. split; [done|].
    split; [by intros ? ?%elem_of_nil|].
    split; [intros Hn%agent_by_name_None; congruence|]. split; [done|].
    intros st' more Hst'. rewrite upsert_agent_run, Hname, Hst', agent_by_name_app, Hfound.
    done. }
  destruct (prop "role" (JObj fields)) as [[| | |r| |]|] eqn:Hrole;
    try (left; eexists; split; [done|]; intros st' Hst';
         by rewrite upsert_agent_run, Hname, Hst', Hfound, Hrole).
  destruct (prop "goal" (JObj fields)) as [[| | |g| |]|] eqn:Hgoal;
    try (left; eexists; split; [done|]; intros st' Hst';
         by rewrite upsert_agent_run, Hname, Hst', Hfound, Hrole, Hgoal).
  right. eexists n, [_]. split; [done|]. split; [|split; [|split]].
  - intros a ->%list_elem_of_singleton. done.
  - done.
  - intros Hin. by apply agent_by_name_None in Hfound.
  - intros st' more Hst'.
    rewrite upsert_agent_run, Hname, Hst', !agent_by_name_app, Hfound. cbn.
    by rewrite bool_decide_true.
Qed.

Lemma upsert_step_NoDup n created (l : list Agent) :
  (n ∉ agent_name <$> l → agent_name <$> created = [n]) →
  (n ∈ agent_name <$> l → created = []) →
  NoDup (agent_name <$> l) → NoDup (agent_name <$> (l ++ created)).
Proof.
  intros Hnew Hold Hnd. destruct (decide (n ∈ agent_name <$> l)) as [Hin|Hnin].
  - by rewrite (Hold Hin), app_nil_r.
  - rewrite fmap_app, (Hnew Hnin). apply NoDup_app. split; [done|].
    split; [|apply NoDup_singleton]. by intros x Hx ->%list_elem_of_singleton.
Qed.

(** The loop appends rows under names the table lacked and pushes the
    names it has processed; run again over the same entries on a table
    that holds exactly the rows it has left, it creates nothing, pushes
    the same names and ends the same way. *)
Lemma upsert_all_effect entries : ∀ st,
  ∃ created names,
    (upsert_all entries st).1 = synced_more names (registered created st) ∧
    (∀ a, a ∈ created → agent_by_name (agent_name a) (agents st) = None) ∧
    (NoDup (agent_name <$> agents st) → NoDup (agent_name <$> (agents st ++ created))) ∧
    ∀ st', agents st' = agents st ++ created →
      upsert_all entries st' = (synced_more names st', (upsert_all entries st).2).
Proof.
  induction entries as [|agent rest IH]; intros st.
  - exists [], []. cbn [upsert_all]. rewrite run_ret. cbn [fst snd].
    rewrite registered_nil, synced_more_nil, app_nil_r.
    split; [done|]. split; [by intros ? ?%elem_of_nil|]. split; [done|].
    intros st' _. by rewrite run_ret, synced_more_nil.
  - cbn [upsert_all]. rewrite run_bind.
    destruct (upsert_agent_effect agent st)
      as [(e & -> & Hagain)|(n & c1 & -> & Hfresh1 & Hnew & Hold & Hagain)].
    + exists [], []. cbn [fst snd]. rewrite registered_nil, synced_more_nil, app_nil_r.
      split; [done|]. split; [by intros ? ?%elem_of_nil|]. split; [done|].
      intros st' Hst'. by rewrite run_bind, (Hagain st' Hst'), synced_more_nil.
    + destruct (IH (synced_more [n] (registered c1 st)))
        as (c2 & names & Hstate & Hfresh2 & Hnd & Hrest).
      cbn [agents synced_more registered set_discoveryStatus set_agents set_drawn]
        in Hfresh2, Hnd, Hrest.
      exists (c1 ++ c2), (n :: names).
      split; [by rewrite Hstate, synced_registered_twice|].
      split; [|split].
      * intros a [Ha|Ha]%elem_of_app; [by apply Hfresh1|].
        specialize (Hfresh2 a Ha). rewrite agent_by_name_app in Hfresh2.
        by destruct (agent_by_name (agent_name a) (agents st)).
      * intros Hst. rewrite app_assoc. apply Hnd.
        by apply (upsert_step_NoDup n).
      * intros st' Hst'. rewrite run_bind, (Hagain st' c2 Hst').
        rewrite (Hrest (synced_more [n] st')), synced_more_twice; [done|].
        cbn. by rewrite Hst', app_assoc.
Qed.

Lemma error_text_nonempty e : error_text e ≠ "".
Proof. unfold error_text. by case_bool_decide. Qed.

Lemma not_an_array v : negb (truthy v) || negb (is_array v) = negb (is_array v).
Proof. destruct v as [[| | | | |]|]; cbn; by rewrite ?orb_true_r. Qed.

Lemma discoverAgents_before_sync fetched now st :
  fails_before_sync fetched = true →
  ∃ msg, msg ≠ "" ∧
    discoverAgents fetched now st = (set_discoveryStatus (set_error (Some msg)) st, Ok tt).
Proof.
  unfold fails_before_sync, discoverAgents, discover_body, try_catch.
  destruct fetched as [msg|[code body]]; cbn [resp_body].
  { intros _. eexists. split; [apply error_text_nonempty|done]. }
  destruct (negb (res_ok _)); cbn [orb].
  { intros _. eexists. split; [|done]. done. }
  destruct body as [card|msg]; rewrite run_bind; cbn.
  2:{ intros _. eexists. split; [apply error_text_nonempty|done]. }
  intros Hnot. rewrite run_bind. unfold member.
  destruct card; cbn -[truthy is_array] in Hnot |- *;
    rewrite ?not_an_array, ?Hnot;
    eexists; (split; [|done]); first [done|apply error_text_nonempty].
Qed.

Lemma discoverAgents_sync fetched now st :
  fails_before_sync fetched = false →
  discoverAgents fetched now st =
  let entries := card_entries fetched in
  sync_ended now (upsert_all entries (sync_started (length entries) st)).
Proof.
  unfold fails_before_sync, discoverAgents, discover_body, try_catch, card_entries.
  destruct fetched as [msg|[code body]]; cbn [resp_body]; [done|].
  destruct (negb (res_ok _)); cbn [orb]; [done|].
  destruct body as [card|msg]; [|done]. rewrite run_bind. cbn [res_json resp_body].
  rewrite run_ret. intros Harr%negb_false_iff. rewrite run_bind. unfold member.
  destruct card; try done. rewrite run_ret.
  destruct (prop "agents" (JObj fields)) as [[| | | |entries|]|]; try done.
  cbn [truthy is_array negb orb]. do 4 (rewrite run_bind; cbn [update_status modify]).
  change (upsert_all entries _) with
    (upsert_all entries (sync_started (length entries) st)).
  by destruct (upsert_all entries _) as [st1 [[]|e]].
Qed.

Lemma sync_ended_agents now looped : agents (sync_ended now looped).1 = agents looped.1.
Proof. by destruct looped as [st1 [[]|e]]. Qed.

Lemma sync_ended_synced now looped :
  agentsSynced (discoveryStatus (sync_ended now looped).1) =
  agentsSynced (discoveryStatus looped.1).
Proof. by destruct looped as [st1 [[]|e]]. Qed.

Lemma sync_started_agents n st : agents (sync_started n st) = agents st.
Proof. done. Qed.

(** C5 (amended).  A discovery run never lets a failure escape
    discoverAgents: it always returns, and a failed run (one that leaves
    error set) has overwritten error with a non-empty message and has
    not advanced lastRun, while a run that leaves error unset has
    advanced it.  When the run fails before the upsert loop starts
    (the fetch rejects, the response is not a success, its body is not
    JSON, or the payload has no agents array) every field other than
    error is left as it was.  When an error is thrown inside the upsert
    loop, agentsDiscovered already counts the entries of the new
    document. *)
Theorem discovery_failure_is_absorbed fetched now st :
  let st' := (discoverAgents fetched now st).1 in
  let before := discoveryStatus st in
  let after := discoveryStatus st' in
  (discoverAgents fetched now st).2 = Ok tt ∧
  (error after ≠ None →
     lastRun after = lastRun before ∧ ∃ msg, error after = Some msg ∧ msg ≠ "") ∧
  (error after = None → lastRun after = Some now) ∧
  (fails_before_sync fetched = true →
     ∃ msg, msg ≠ "" ∧ after = set_error (Some msg) before) ∧
  (fails_before_sync fetched = false → error after ≠ None →
     agentsDiscovered after = length (card_entries fetched)).
Proof.
  intros st' before after. subst st' before after.
  destruct (fails_before_sync fetched) eqn:Hearly.
  - destruct (discoverAgents_before_sync fetched now st Hearly) as (msg & Hmsg & ->).
    cbn. repeat split; try done; eauto.
  - rewrite (discoverAgents_sync fetched now st Hearly). cbn zeta.
    destruct (upsert_all_effect (card_entries fetched)
                (sync_started (length (card_entries fetched)) st))
      as (created & names & Hstate & _).
    destruct (upsert_all _ _) as [st1 [[]|e]]; cbn [fst snd] in *; subst st1; cbn.
    + repeat split; done.
    + repeat split; try done. eauto using error_text_nonempty.
Qed.

(** C6.  Discovery upsert is idempotent: for every Agent-store state
    and every registry document, a second run over the unchanged
    document leaves the Agent table as the first run left it (the same
    rows, hence the same size: no duplicate is created) and yields the
    same agentsSynced contents; the first run leaves every existing
    row unmodified, appends rows only under names the table lacked, and
    keeps names unique. *)
Theorem discovery_is_idempotent fetched now1 now2 st :
  let st1 := (discoverAgents fetched now1 st).1 in
  let st2 := (discoverAgents fetched now2 st1).1 in
  agents st2 = agents st1 ∧
  length (agents st2) = length (agents st1) ∧
  agentsSynced (discoveryStatus st2) = agentsSynced (discoveryStatus st1) ∧
  (∃ created,
     agents st1 = agents st ++ created ∧
     ∀ a, a ∈ created → agent_by_name (agent_name a) (agents st) = None) ∧
  (NoDup (agent_name <$> agents st) → NoDup (agent_name <$> agents st1)).
Proof.
  intros st1 st2. subst st1 st2.
  destruct (fails_before_sync fetched) eqn:Hearly.
  - destruct (discoverAgents_before_sync fetched now1 st Hearly) as (msg & _ & ->).
    cbn [fst].
    destruct (discoverAgents_before_sync fetched now2
                (set_discoveryStatus (set_error (Some msg)) st) Hearly) as (msg' & _ & ->).
    cbn. repeat split; try done. exists []. rewrite app_nil_r.
    split; [done|]. by intros ? ?%elem_of_nil.
  - rewrite !(discoverAgents_sync fetched _ _ Hearly). cbn zeta.
    set (entries := card_entries fetched).
    destruct (upsert_all_effect entries (sync_started (length entries) st))
      as (created & names & Hstate & Hfresh & Hnd & Hagain).
    set (st1 := (sync_ended now1 (upsert_all entries (sync_started (length entries) st))).1).
    assert (agents st1 = agents st ++ created) as Hst1.
    { subst st1. by rewrite sync_ended_agents, Hstate. }
    assert (agentsSynced (discoveryStatus st1) = names) as Hsynced1.
    { subst st1. by rewrite sync_ended_synced, Hstate. }
    rewrite (Hagain (sync_started (length entries) st1)) by done.
    rewrite sync_ended_agents, sync_ended_synced, Hsynced1, Hst1. cbn [fst].
    split; [by cbn|]. split; [by cbn; rewrite Hst1|]. split; [done|].
    split; [eauto|done].
Qed.

(** ** Reconciliation *)

(** C2.  The server provides no reconciliation operation.  The request
    the end-to-end scenario sends to obtain the report,
    GET /api/reconciliation, matches none of the registered routes, nor
    does the path the design document names, /reconciliation, under any
    method; and every request that is routed reaches one of the nine
    handlers above, none of which builds a report. *)
Theorem reconciliation_is_not_routed :
  (∀ m, route m ["api"; "reconciliation"] = None ∧ route m ["reconciliation"] = None) ∧
  ∀ m path e, route m path = Some e →
    (m, path) ∈ [(GET, ["api"; "health"]); (GET, ["api"; "agents"]); (GET, ["api"; "tasks"]);
                 (GET, ["api"; "tasks"; "zombies"]); (GET, ["api"; "usage"]);
                 (GET, ["api"; "discovery"]); (GET, ["api"; "traces"])] ∨
    ∃ id, id ≠ "" ∧ m = POST ∧
          (path = ["api"; "tasks"; id; "approve"] ∨ path = ["api"; "tasks"; id; "reject"]).
Proof.
  split; [by intros []|].
  intros m path e. unfold route. intros Hroute.
  apply fmap_Some in Hroute as ([[m' pattern] e'] & Hfind & _).
  apply find_some in Hfind as [Hin Hmatch]. simpl in Hmatch.
  apply andb_true_iff in Hmatch as [Hm Hmatch]. apply bool_decide_eq_true in Hm as ->.
  assert (∀ s x rest rest', route_matches (Lit s :: rest) (x :: rest') = true →
            x = s ∧ route_matches rest rest' = true) as Hlit.
  { intros s x rest rest' H. simpl in H. apply andb_true_iff in H as [Hs ?].
    by apply bool_decide_eq_true in Hs as ->. }
  assert (∀ n x rest rest', route_matches (Param n :: rest) (x :: rest') = true →
            x ≠ "" ∧ route_matches rest rest' = true) as Hparam.
  { intros n x rest rest' H. simpl in H. apply andb_true_iff in H as [Hs ?].
    apply negb_true_iff, bool_decide_eq_false in Hs. done. }
  assert (∀ rest', route_matches [] rest' = true → rest' = []) as Hnil.
  { by intros []. }
  unfold routes in Hin. apply list_elem_of_In in Hin.
  repeat (apply elem_of_cons in Hin as [Hin|Hin]);
    [..|by apply elem_of_nil in Hin]; simplify_eq;
    repeat match goal with
    | H : route_matches [] _ = true |- _ => apply Hnil in H; subst
    | H : route_matches (_ :: _) ?p = true |- _ =>
        destruct p as [|? ?]; [done|];
        first [ apply Hlit in H as [-> H] | apply Hparam in H as [? H] ]
    end.
  all: try (left; solve [repeat first [apply list_elem_of_here | apply list_elem_of_further]]).
  all: right; eexists; split; [eassumption|split; [done|eauto]].
Qed.

(** * Further properties of the handlers *)

(** ** Lifecycle: refusals, repetition, frames *)

Lemma agent_by_id_app i l l' :
  agent_by_id i (l ++ l') =
  match agent_by_id i l with
  | Some a => Some a
  | None => agent_by_id i l'
  end.
Proof.
  unfold agent_by_id. induction l as [|a l IH]; simpl; [done|].
  by destruct (bool_decide (agent_id a = i)).
Qed.

(** A discovery run only appends rows, under names the table lacked. *)
Lemma discoverAgents_appends fetched now st :
  ∃ created,
    agents (discoverAgents fetched now st).1 = agents st ++ created ∧
    (NoDup (agent_name <$> agents st) →
     NoDup (agent_name <$> agents (discoverAgents fetched now st).1)).
Proof.
  destruct (fails_before_sync fetched) eqn:Hearly.
  - destruct (discoverAgents_before_sync fetched now st Hearly) as (msg & _ & ->).
    exists []. cbn. by rewrite app_nil_r.
  - rewrite (discoverAgents_sync fetched now st Hearly). cbn zeta.
    destruct (upsert_all_effect (card_entries fetched)
                (sync_started (length (card_entries fetched)) st))
      as (created & names & Hstate & _ & Hnd & _).
    exists created. rewrite sync_ended_agents, Hstate. done.
Qed.

(** What one event does to the Task and Agent tables. *)
Lemma handle_tables st e :
  (∃ created, agents (handle st e) = agents st ++ created) ∧
  (tasks (handle st e) = tasks st ∨
   ∃ id t s,
     targeted e = Some id ∧ tasks st !! id = Some t ∧ s ≠ PENDING ∧
     tasks (handle st e) = <[id := with_status s t]> (tasks st)).
Proof.
  assert (∀ l : list Agent, ∃ created, l = l ++ created) as Hsame
    by (intros l; exists []; by rewrite app_nil_r).
  destruct e as [id t0 t1|id t0 t1|fetched now| | | | | |]; simpl; auto.
  - destruct (tasks st !! id) as [t|] eqn:Ht; [|rewrite approve_missing by done; auto].
    destruct (approve_effect id t0 t1 st t Ht) as (? & _ & -> & -> & _).
    split; [done|]. right. by exists id, t, APPROVED.
  - destruct (tasks st !! id) as [t|] eqn:Ht; [|rewrite reject_missing by done; auto].
    destruct (reject_effect id t0 t1 st t Ht) as (? & _ & -> & -> & _).
    split; [done|]. right. by exists id, t, REJECTED.
  - destruct (discoverAgents_appends fetched now st) as (created & -> & _).
    destruct (stable_discoverAgents fetched now st) as (-> & _). eauto.
Qed.

Lemma handle_dom st e : dom (tasks (handle st e)) = dom (tasks st).
Proof.
  destruct (handle_tables st e) as [_ [->|(id & t & s & _ & Ht & _ & ->)]]; [done|].
  by apply dom_insert_lookup_L.
Qed.

Lemma run_dom es : ∀ st, dom (tasks (run st es)) = dom (tasks st).
Proof.
  induction es as [|e es IH]; intros st; simpl; [done|].
  by rewrite IH, handle_dom.
Qed.

(** X1.  Approve and reject of an id that names no task are refused
    with a not-found error before anything is done: the store, the bus,
    the spans and the identifier source are left as they were. *)
Theorem unknown_task_is_refused id t0 t1 st :
  tasks st !! id = None →
  (∃ e, approve id t0 t1 st = (st, Throw e) ∧ err_kind e = RecordNotFound) ∧
  (∃ e, reject id t0 t1 st = (st, Throw e) ∧ err_kind e = RecordNotFound).
Proof.
  intros Hnone. rewrite approve_missing, reject_missing by done.
  split; eexists; split; done.
Qed.

(** X2.  Approving a task a second time writes the same row again and
    repeats the publication.  With a trace identifier the bus takes
    (a string carried by the payload, or a generated one) a second
    resume signal is published: with a non-empty string in the payload
    the two signals are the same message twice; with none, each approval
    draws its own identifier and the two differ.  With a trace
    identifier the bus refuses, neither approval publishes. *)
Theorem reapproval_republishes id t0 t1 t2 t3 st t :
  tasks st !! id = Some t →
  let st1 := (approve id t0 t1 st).1 in
  let st2 := (approve id t2 t3 st1).1 in
  tasks st2 = tasks st1 ∧
  (text_traceId (inputPayload t) = true →
     ∃ m1 m2,
       bus st2 = bus st ++ [m1; m2] ∧
       (truthy (opt_prop "traceId" (inputPayload t)) = true → m1 = m2) ∧
       (truthy (opt_prop "traceId" (inputPayload t)) = false →
          msg_attr_traceId m1 ≠ msg_attr_traceId m2)) ∧
  (text_traceId (inputPayload t) = false → bus st2 = bus st).
Proof.
  intros Ht st1 st2.
  destruct (approve_effect id t0 t1 st t Ht)
    as (tr1 & Hd1 & Htasks1 & Hagents1 & _ & Hdrawn1 & Heffect1).
  fold st1 in Htasks1, Hagents1, Hdrawn1, Heffect1.
  assert (tasks st1 !! id = Some (with_status APPROVED t)) as Ht1
    by (by rewrite Htasks1, lookup_insert_eq).
  destruct (approve_effect id t2 t3 st1 _ Ht1)
    as (tr2 & Hd2 & Htasks2 & _ & _ & _ & Heffect2).
  fold st2 in Htasks2, Heffect2.
  split; [by rewrite Htasks2, Htasks1, insert_insert_eq|].
  rewrite (derive_traceId_text _ _ _ Hd1) in Heffect1.
  rewrite (derive_traceId_text _ _ _ Hd2) in Heffect2.
  cbn [inputPayload with_status] in Heffect2, Hd2.
  split; intros Htext; rewrite Htext in Heffect1, Heffect2.
  - destruct Heffect1 as [Hbus1 _], Heffect2 as [Hbus2 _].
    do 2 eexists. split; [by rewrite Hbus2, Hbus1, <- app_assoc|].
    rewrite derive_traceId_run in Hd1, Hd2, Hdrawn1.
    split; intros Hcase; rewrite Hcase in Hd1, Hd2, Hdrawn1; cbn in Hd1, Hd2, Hdrawn1.
    + simplify_eq. by rewrite Hagents1.
    + cbn. intros Heq. simplify_eq. lia.
  - destruct Heffect1 as [Hbus1 _], Heffect2 as [Hbus2 _]. congruence.
Qed.

(** X3.  No event creates or deletes a task, and a run leaves every
    task that none of its approve or reject events names exactly as it
    was. *)
Theorem untargeted_tasks_are_untouched es st :
  dom (tasks (run st es)) = dom (tasks st) ∧
  ∀ id, Some id ∉ targeted <$> es → tasks (run st es) !! id = tasks st !! id.
Proof.
  split; [apply run_dom|]. revert st.
  induction es as [|e es IH]; intros st id Hid; simpl; [done|].
  rewrite fmap_cons, not_elem_of_cons in Hid. destruct Hid as [He Hes].
  rewrite IH by done.
  destruct (handle_tables st e) as [_ [->|(id' & t & s & He' & _ & _ & ->)]]; [done|].
  rewrite lookup_insert_ne; [done|]. congruence.
Qed.

Lemma join_agent_agents st st' p : agents st' = agents st → join_agent st' p = join_agent st p.
Proof. intros Heq. unfold join_agent. by rewrite Heq. Qed.

(** A PENDING-only query after a task has left PENDING: the same rows
    but that task's. *)
Lemma task_findMany_resolved (P : Task → Prop) `{∀ t, Decision (P t)}
    (order : relation TaskRow) `{∀ a b, Decision (order a b)} st st' id t s row :
  (∀ t, P t → status t = PENDING) →
  tasks st !! id = Some t → s ≠ PENDING →
  tasks st' = <[id := with_status s t]> (tasks st) →
  agents st' = agents st →
  row ∈ task_findMany P order st' ↔ row ∈ task_findMany P order st ∧ row_id row ≠ id.
Proof.
  intros Hpending Ht Hs Htasks Hagents. rewrite !task_findMany_elem. split.
  - intros (id' & t' & Ht' & HP & ->). rewrite Htasks in Ht'.
    destruct (decide (id = id')) as [<-|Hne].
    + rewrite lookup_insert_eq in Ht'. simplify_eq. by apply Hpending in HP.
    + rewrite lookup_insert_ne in Ht' by done.
      split; [|by cbn]. exists id', t'. by rewrite (join_agent_agents st st').
  - intros [(id' & t' & Ht' & HP & ->) Hne]. cbn in Hne.
    exists id', t'. rewrite Htasks, lookup_insert_ne by done.
    by rewrite (join_agent_agents st st').
Qed.

Lemma handle_targeted st e id t :
  targeted e = Some id →
  tasks st !! id = Some t →
  ∃ s, s ≠ PENDING ∧
    tasks (handle st e) = <[id := with_status s t]> (tasks st) ∧
    agents (handle st e) = agents st.
Proof.
  intros He Ht. destruct e as [id' t0 t1|id' t0 t1| | | | | | |]; simplify_eq/=.
  - destruct (approve_effect id t0 t1 st t Ht) as (? & _ & -> & -> & _).
    by exists APPROVED.
  - destruct (reject_effect id t0 t1 st t Ht) as (? & _ & -> & -> & _).
    by exists REJECTED.
Qed.

(** X4.  Once a task has been approved or rejected it is listed neither
    by GET /tasks nor by GET /tasks/zombies, and every other entry of
    the two lists is there as before. *)
Theorem resolved_task_leaves_both_lists e id t now st :
  targeted e = Some id →
  tasks st !! id = Some t →
  let st' := handle st e in
  (∀ v, v ∈ tasks_listed (get_tasks now st') ↔
        v ∈ tasks_listed (get_tasks now st) ∧ row_id (tv_row v) ≠ id) ∧
  (∀ row, row ∈ zombies (get_zombies now st') ↔
          row ∈ zombies (get_zombies now st) ∧ row_id row ≠ id).
Proof.
  intros He Ht st'.
  destruct (handle_targeted st e id t He Ht) as (s & Hs & Htasks & Hagents).
  fold st' in Htasks, Hagents. split.
  - intros v. unfold get_tasks. cbn [tasks_listed]. rewrite !list_elem_of_fmap. split.
    + intros (row & -> & Hrow).
      eapply task_findMany_resolved in Hrow as [Hrow Hne]; eauto.
    + intros [(row & -> & Hrow) Hne]. exists row. split; [done|].
      eapply task_findMany_resolved; eauto.
  - intros row. unfold get_zombies. cbn [zombies].
    eapply task_findMany_resolved; eauto. by intros ? [? _].
Qed.

Lemma filter_and_sublist {A} (P Q : A → Prop)
    `{∀ x, Decision (P x)} `{∀ x, Decision (Q x)} (l : list A) :
  filter (λ x, P x ∧ Q x) l `sublist_of` filter P l.
Proof.
  induction l as [|x l IH]; [done|]. rewrite !filter_cons.
  destruct (decide (P x ∧ Q x)) as [[HP HQ]|Hno].
  - rewrite decide_True by done. by constructor.
  - destruct (decide (P x)); [by constructor|done].
Qed.

(** X5.  The two zombie detection modes agree: a row is returned by
    GET /tasks/zombies exactly when GET /tasks, asked at the same
    instant, lists it flagged isZombie; so the zombie count never
    exceeds the length of the queue. *)
Theorem zombie_modes_agree now st :
  (∀ row, row ∈ zombies (get_zombies now st) ↔
          mkTaskView row true ∈ tasks_listed (get_tasks now st)) ∧
  (zombies_count (get_zombies now st) ≤ tasks_count (get_tasks now st))%nat.
Proof.
  unfold get_zombies, get_tasks. cbn [zombies tasks_listed zombies_count tasks_count].
  split.
  - intros row. rewrite list_elem_of_fmap, !task_findMany_elem. split.
    + intros (id & t & Ht & [HP Hlt] & ->). eexists. split.
      2:{ apply task_findMany_elem. eauto. }
      unfold annotate. f_equal. symmetry. apply bool_decide_eq_true. cbn. lia.
    + intros (row' & Heq & (id & t & Ht & HP & ->)%task_findMany_elem).
      unfold annotate in Heq. injection Heq as -> Hflag.
      symmetry in Hflag. apply bool_decide_eq_true in Hflag. cbn in Hflag.
      exists id, t. repeat split; try done. lia.
  - rewrite !task_findMany_length. apply sublist_length.
    apply (filter_and_sublist (λ p : string * Task, status p.2 = PENDING)
             (λ p : string * Task, createdAt p.2 < now - ZOMBIE_THRESHOLD_MS)).
Qed.

(** X6.  With the store unchanged the zombie list only grows as time
    passes: a task listed at one instant is listed at every later one. *)
Theorem zombies_accumulate now now' st row :
  now ≤ now' →
  row ∈ zombies (get_zombies now st) → row ∈ zombies (get_zombies now' st).
Proof.
  intros Hle. unfold get_zombies. cbn [zombies]. rewrite !task_findMany_elem.
  intros (id & t & Ht & [HP Hlt] & ->). exists id, t. repeat split; try done. lia.
Qed.

(** X7.  GET /tasks lists the queue newest first, and its count is the
    length of the list. *)
Theorem tasks_listed_newest_first now st :
  StronglySorted
    (λ a b, createdAt (row_task (tv_row b)) ≤ createdAt (row_task (tv_row a)))
    (tasks_listed (get_tasks now st)) ∧
  tasks_count (get_tasks now st) = length (tasks_listed (get_tasks now st)).
Proof.
  unfold get_tasks. cbn [tasks_listed tasks_count]. split; [|by rewrite length_fmap].
  eapply (StronglySorted_fmap _ createdAt_desc); [by intros a b Hab|].
  apply (task_findMany_sorted _ createdAt_desc).
Qed.


(** ** Side effects of a run *)

(** No event touches the payload of a task. *)
Lemma handle_payloads st e id :
  inputPayload <$> tasks (handle st e) !! id = inputPayload <$> tasks st !! id.
Proof.
  destruct (handle_tables st e) as [_ [->|(id' & t & s & _ & Ht & _ & ->)]]; [done|].
  destruct (decide (id' = id)) as [->|Hne].
  - by rewrite lookup_insert_eq, Ht.
  - by rewrite lookup_insert_ne.
Qed.

Lemma resolves_payloads m m' e :
  (∀ id, inputPayload <$> m !! id = inputPayload <$> m' !! id) →
  resolves m e = resolves m' e.
Proof.
  intros Hsame. unfold resolves. destruct (targeted e) as [id|]; [|done].
  specialize (Hsame id).
  destruct (m !! id), (m' !! id); simplify_eq/=; congruence.
Qed.

Lemma publishes_payloads m m' e :
  (∀ id, inputPayload <$> m !! id = inputPayload <$> m' !! id) →
  publishes m e = publishes m' e.
Proof. intros Hsame. unfold publishes. destruct e; try done. by apply resolves_payloads. Qed.

(** The messages one event adds to the bus. *)
Lemma handle_bus st e :
  ∃ new,
    bus (handle st e) = bus st ++ new ∧
    length new = (if publishes (tasks st) e then 1 else 0)%nat ∧
    ∀ m, m ∈ new →
      prop "type" (msg_data m) = Some (JStr "RESUME") ∧
      prop "traceId" (msg_data m) = Some (msg_attr_traceId m) ∧
      is_text (msg_attr_traceId m) = true.
Proof.
  assert (∃ new : list BusMessage,
    bus st = bus st ++ new ∧ length new = 0%nat ∧
    ∀ m, m ∈ new →
      prop "type" (msg_data m) = Some (JStr "RESUME") ∧
      prop "traceId" (msg_data m) = Some (msg_attr_traceId m) ∧
      is_text (msg_attr_traceId m) = true) as Hquiet.
  { exists []. rewrite app_nil_r. split; [done|]. split; [done|]. by intros ? ?%elem_of_nil. }
  destruct e as [id t0 t1|id t0 t1|fetched now| | | | | |];
    cbn [handle publishes resolves targeted]; try done.
  - destruct (tasks st !! id) as [t|] eqn:Ht.
    + destruct (approve_effect id t0 t1 st t Ht) as (tr & Hd & _ & _ & _ & _ & Heffect).
      rewrite <- (derive_traceId_text _ _ _ Hd).
      destruct (is_text tr) eqn:Htext.
      * destruct Heffect as [-> _]. eexists [_]. split; [done|]. split; [done|].
        by intros m ->%list_elem_of_singleton.
      * by destruct Heffect as [-> _].
    + by rewrite approve_missing.
  - destruct (tasks st !! id) as [t|] eqn:Ht.
    + destruct (reject_effect id t0 t1 st t Ht) as (tr & _ & _ & _ & _ & _ & -> & _). done.
    + by rewrite reject_missing.
  - destruct (stable_discoverAgents fetched now st) as (_ & _ & -> & _). done.
Qed.

(** X8.  The bus is append-only and only approvals publish: over any
    run of events the bus gains exactly one message per approve event
    that names an existing task whose trace identifier the bus takes
    (a string in the payload, or none, in which case one is generated),
    each a RESUME document whose traceId is a string and is also its
    attribute; approvals the bus refuses, rejections, discovery runs and
    queries publish nothing. *)
Theorem only_approvals_publish es st :
  ∃ new,
    bus (run st es) = bus st ++ new ∧
    length new = length (filter (λ e, publishes (tasks st) e) es) ∧
    ∀ m, m ∈ new →
      prop "type" (msg_data m) = Some (JStr "RESUME") ∧
      prop "traceId" (msg_data m) = Some (msg_attr_traceId m) ∧
      is_text (msg_attr_traceId m) = true.
Proof.
  revert st. induction es as [|e es IH]; intros st; cbn [run fold_left].
  - exists []. rewrite app_nil_r. split; [done|]. split; [done|]. by intros ? ?%elem_of_nil.
  - destruct (handle_bus st e) as (new1 & Hbus1 & Hlen1 & Hnew1).
    destruct (IH (handle st e)) as (new2 & Hbus2 & Hlen2 & Hnew2).
    exists (new1 ++ new2). fold (run (handle st e) es).
    split; [by rewrite Hbus2, Hbus1, app_assoc|]. split.
    + rewrite length_app, Hlen1, Hlen2, filter_cons.
      rewrite (list_filter_iff _ (λ e, publishes (tasks st) e) es)
        by (intros e'; by rewrite (publishes_payloads _ (tasks st)) by apply handle_payloads).
      destruct (publishes (tasks st) e); cbn; [|done].
      rewrite decide_True; done.
    + intros m [Hm|Hm]%elem_of_app; auto.
Qed.

Lemma handle_owners st e : owners_joined st → owners_joined (handle st e).
Proof.
  intros Hjoined id t Ht.
  destruct (handle_tables st e) as [[created ->] Htasks].
  assert (∀ t0, tasks st !! id = Some t0 → agentId t = agentId t0 →
    is_Some (agent_by_id (agentId t) (agents st ++ created))) as Hfound.
  { intros t0 Ht0 ->. destruct (Hjoined id t0 Ht0) as [a Ha].
    rewrite agent_by_id_app, Ha. eauto. }
  destruct Htasks as [Hsame|(id' & t' & s & _ & Ht' & _ & Hset)].
  - rewrite Hsame in Ht. eauto.
  - rewrite Hset in Ht. destruct (decide (id' = id)) as [->|Hne].
    + rewrite lookup_insert_eq in Ht. simplify_eq. eauto.
    + rewrite lookup_insert_ne in Ht by done. eauto.
Qed.

Lemma run_owners es : ∀ st, owners_joined st → owners_joined (run st es).
Proof.
  induction es as [|e es IH]; intros st Hjoined; simpl; [done|].
  by apply IH, handle_owners.
Qed.

(** X9.  Referential integrity is an invariant of the process: if the
    owner of every task is a row of the Agent table, the same holds
    after any run of events.  Approve and reject of an existing task
    then never fail on the owner's name: with a trace identifier that
    is a string (carried by the payload, or generated) they return the
    updated row with its owner joined; with one that is not, approve
    fails at the publication and reject at the span, the status having
    been written. *)
Theorem owners_stay_joined es st id t0 t1 t :
  owners_joined st →
  tasks st !! id = Some t →
  owners_joined (run st es) ∧
  (text_traceId (inputPayload t) = true →
     (∃ row, (approve id t0 t1 (run st es)).2 = Ok row ∧ row_id row = id ∧
             status (row_task row) = APPROVED ∧ is_Some (row_agent row)) ∧
     (∃ row, (reject id t0 t1 (run st es)).2 = Ok row ∧ row_id row = id ∧
             status (row_task row) = REJECTED ∧ is_Some (row_agent row))) ∧
  (text_traceId (inputPayload t) = false →
     (∃ e, (approve id t0 t1 (run st es)).2 = Throw e ∧ err_kind e = TypeError ∧
           status <$> tasks (approve id t0 t1 (run st es)).1 !! id = Some APPROVED) ∧
     (∃ e, (reject id t0 t1 (run st es)).2 = Throw e ∧ err_kind e = ValidationError ∧
           status <$> tasks (reject id t0 t1 (run st es)).1 !! id = Some REJECTED)).
Proof.
  intros Hjoined Hid. pose proof (run_owners es st Hjoined) as Hrun.
  split; [done|].
  destruct (run_task es st id t Hid) as (s & Ht & _).
  destruct (Hrun id _ Ht) as [a Ha].
  destruct (approve_effect id t0 t1 _ _ Ht) as (tr & Hd & Htasks & _ & _ & _ & Happrove).
  destruct (reject_effect id t0 t1 _ _ Ht) as (tr' & Hd' & Htasks' & _ & _ & _ & _ & Hreject).
  rewrite (derive_traceId_text _ _ _ Hd) in Happrove.
  rewrite Ha, (derive_traceId_text _ _ _ Hd') in Hreject.
  cbn [inputPayload with_status] in Happrove, Hreject.
  split; intros Htext; rewrite Htext in Happrove, Hreject.
  - rewrite Ha in Happrove.
    destruct Happrove as (_ & _ & ->), Hreject as [_ ->].
    split; eexists; (split; [done|]); cbn; eauto.
  - destruct Happrove as (_ & _ & ->), Hreject as [_ ->].
    rewrite Htasks, Htasks', !lookup_insert_eq.
    split; eexists; (split; [done|]); cbn; eauto.
Qed.

(** The spans one event records, in a store that keeps its owners. *)
Lemma handle_spans st e :
  owners_joined st →
  ∃ new,
    spans (handle st e) = spans st ++ new ∧
    length new = (if resolves (tasks st) e then 1 else 0)%nat ∧
    ∀ d, d ∈ new →
      sd_service d = "acc" ∧ is_text (sd_traceId d) = true ∧
      (sd_operation d = "approve_task" ∨ sd_operation d = "reject_task").
Proof.
  intros Hjoined.
  assert (∃ new : list SpanData,
    spans st = spans st ++ new ∧ length new = 0%nat ∧
    ∀ d, d ∈ new →
      sd_service d = "acc" ∧ is_text (sd_traceId d) = true ∧
      (sd_operation d = "approve_task" ∨ sd_operation d = "reject_task")) as Hquiet.
  { exists []. rewrite app_nil_r. split; [done|]. split; [done|]. by intros ? ?%elem_of_nil. }
  destruct e as [id t0 t1|id t0 t1|fetched now| | | | | |];
    cbn [handle resolves targeted]; try done.
  - destruct (tasks st !! id) as [t|] eqn:Ht.
    + destruct (approve_effect id t0 t1 st t Ht) as (tr & Hd & _ & _ & _ & _ & Heffect).
      rewrite <- (derive_traceId_text _ _ _ Hd).
      destruct (Hjoined id t Ht) as [a Ha]. rewrite Ha in Heffect.
      destruct (is_text tr) eqn:Htext.
      * destruct Heffect as (_ & -> & _). eexists [_]. split; [done|]. split; [done|].
        intros d ->%list_elem_of_singleton. auto.
      * by destruct Heffect as (_ & -> & _).
    + by rewrite approve_missing.
  - destruct (tasks st !! id) as [t|] eqn:Ht.
    + destruct (reject_effect id t0 t1 st t Ht) as (tr & Hd & _ & _ & _ & _ & _ & Hspans).
      rewrite <- (derive_traceId_text _ _ _ Hd).
      destruct (Hjoined id t Ht) as [a Ha]. rewrite Ha in Hspans.
      destruct (is_text tr) eqn:Htext.
      * destruct Hspans as [-> _]. eexists [_]. split; [done|]. split; [done|].
        intros d ->%list_elem_of_singleton. auto.
      * by destruct Hspans as [-> _].
    + by rewrite reject_missing.
  - destruct (stable_discoverAgents fetched now st) as (_ & -> & _). done.
Qed.

(** X10.  In a store that keeps its owners, every approve or reject of
    an existing task whose trace identifier is a string (carried by the
    payload, or generated) leaves exactly one span, and nothing else
    writes spans: over any run the span log gains one "acc" span, of
    operation approve_task or reject_task and with a string as traceId,
    per such event; requests that are refused, or that fail on a trace
    identifier that is not a string, leave none. *)
Theorem one_span_per_resolution es st :
  owners_joined st →
  ∃ new,
    spans (run st es) = spans st ++ new ∧
    length new = length (filter (λ e, resolves (tasks st) e) es) ∧
    ∀ d, d ∈ new →
      sd_service d = "acc" ∧ is_text (sd_traceId d) = true ∧
      (sd_operation d = "approve_task" ∨ sd_operation d = "reject_task").
Proof.
  revert st. induction es as [|e es IH]; intros st Hjoined; cbn [run fold_left].
  - exists []. rewrite app_nil_r. split; [done|]. split; [done|]. by intros ? ?%elem_of_nil.
  - destruct (handle_spans st e Hjoined) as (new1 & Hspans1 & Hlen1 & Hnew1).
    destruct (IH (handle st e) (handle_owners st e Hjoined))
      as (new2 & Hspans2 & Hlen2 & Hnew2).
    exists (new1 ++ new2). fold (run (handle st e) es).
    split; [by rewrite Hspans2, Hspans1, app_assoc|]. split.
    + rewrite length_app, Hlen1, Hlen2, filter_cons.
      rewrite (list_filter_iff _ (λ e, resolves (tasks st) e) es)
        by (intros e'; by rewrite (resolves_payloads _ (tasks st)) by apply handle_payloads).
      destruct (resolves (tasks st) e); cbn; [|done].
      rewrite decide_True; done.
    + intros d [Hd|Hd]%elem_of_app; auto.
Qed.

(** ** Discovery: what a run reports and what it registers *)

(** X11.  Whatever the registry answers, a discovery run leaves the
    Task table, the span log and the bus as they were. *)
Theorem discovery_leaves_tasks_spans_and_bus fetched now st :
  let st' := (discoverAgents fetched now st).1 in
  tasks st' = tasks st ∧ spans st' = spans st ∧ bus st' = bus st.
Proof.
  destruct (stable_discoverAgents fetched now st) as (? & ? & ? & _). done.
Qed.

Lemma upsert_agent_well_formed e st :
  well_formed_entry e →
  ∃ created,
    upsert_agent e st = (synced_more [entry_name e] (registered created st), Ok tt) ∧
    is_Some (agent_by_name (entry_name e) (agents st ++ created)).
Proof.
  intros (n & r & g & Hn & Hr & Hg). rewrite upsert_agent_run.
  unfold entry_name. destruct e; try done. rewrite Hn, Hr, Hg. cbn [interpolate].
  destruct (agent_by_name n (agents st)) as [a|] eqn:Hfound.
  - exists []. rewrite registered_nil, app_nil_r, Hfound. eauto.
  - eexists [_]. split; [done|]. rewrite agent_by_name_app, Hfound. cbn.
    rewrite bool_decide_true by done. eauto.
Qed.

Lemma upsert_all_well_formed entries : ∀ st,
  Forall well_formed_entry entries →
  ∃ created,
    upsert_all entries st =
      (synced_more (entry_name <$> entries) (registered created st), Ok tt) ∧
    ∀ e, e ∈ entries → is_Some (agent_by_name (entry_name e) (agents st ++ created)).
Proof.
  induction entries as [|e rest IH]; intros st Hwf.
  - exists []. cbn [upsert_all fmap list_fmap]. rewrite run_ret, registered_nil, synced_more_nil.
    split; [done|]. by intros ? ?%elem_of_nil.
  - apply Forall_cons in Hwf as [He Hrest].
    destruct (upsert_agent_well_formed e st He) as (c1 & Hstep & Hfound).
    destruct (IH (synced_more [entry_name e] (registered c1 st)) Hrest)
      as (c2 & Hloop & Hnames).
    cbn [agents synced_more registered set_discoveryStatus set_agents set_drawn] in Hnames.
    exists (c1 ++ c2). cbn [upsert_all]. rewrite run_bind, Hstep, Hloop.
    rewrite synced_registered_twice. split; [done|].
    intros e' [->|He']%elem_of_cons.
    + destruct Hfound as [a Ha]. rewrite app_assoc, agent_by_name_app, Ha. eauto.
    + rewrite app_assoc. by apply Hnames.
Qed.

Lemma upsert_all_app l1 l2 st :
  upsert_all (l1 ++ l2) st =
  match upsert_all l1 st with
  | (st1, Ok _) => upsert_all l2 st1
  | (st1, Throw e) => (st1, Throw e)
  end.
Proof.
  revert st. induction l1 as [|e l1 IH]; intros st; [done|].
  cbn [app upsert_all]. rewrite !run_bind.
  destruct (upsert_agent e st) as [st1 [[]|err]]; [apply IH|done].
Qed.

Lemma fetched_document_syncs code card entries :
  200 ≤ code ≤ 299 →
  prop "agents" card = Some (JArr entries) →
  fails_before_sync (FetchResolves (mkResponse code (BodyJson card))) = false ∧
  card_entries (FetchResolves (mkResponse code (BodyJson card))) = entries.
Proof.
  intros Hok Harr. unfold fails_before_sync, card_entries, res_ok.
  cbn [resp_status resp_body]. rewrite bool_decide_true, Harr by done. done.
Qed.

(** X12.  A successful response whose agents array holds only entries
    with text name, role and goal always syncs: afterwards error is
    unset, lastRun is the instant of the run, agentsDiscovered is the
    number of entries, agentsSynced lists their names in document
    order, and every one of these names is a row of the Agent table. *)
Theorem well_formed_document_syncs code card entries now st :
  200 ≤ code ≤ 299 →
  prop "agents" card = Some (JArr entries) →
  Forall well_formed_entry entries →
  let st' := (discoverAgents (FetchResolves (mkResponse code (BodyJson card))) now st).1 in
  discoveryStatus st' =
    mkDiscoveryStatus (Some now) (length entries) (entry_name <$> entries) None ∧
  ∀ e, e ∈ entries → is_Some (agent_by_name (entry_name e) (agents st')).
Proof.
  intros Hok Harr Hwf st'. subst st'.
  destruct (fetched_document_syncs code card entries Hok Harr) as [Hearly Hentries].
  rewrite (discoverAgents_sync _ now st Hearly), Hentries. cbn zeta.
  destruct (upsert_all_well_formed entries (sync_started (length entries) st) Hwf)
    as (created & -> & Hnames).
  cbn. done.
Qed.

(** X13.  Each failure met before the loop is reported by its own
    message and changes nothing but error: a rejected fetch by the
    error's message ("Unknown error" when it is empty), a response
    outside 200-299 by "HTTP <status> from Agent Card" without its body
    being read, a body that is not JSON by the parser's message, and a
    document without an agents array by a fixed message. *)
Theorem early_failures_are_reported now st :
  let reported msg := (set_discoveryStatus (set_error (Some msg)) st, Ok tt) in
  (∀ msg, discoverAgents (FetchRejects msg) now st =
          reported (if bool_decide (msg = "") then "Unknown error" else msg)) ∧
  (∀ code body, ¬ (200 ≤ code ≤ 299) →
     discoverAgents (FetchResolves (mkResponse code body)) now st =
     reported ("HTTP " +:+ pretty code +:+ " from Agent Card")) ∧
  (∀ code msg, 200 ≤ code ≤ 299 →
     discoverAgents (FetchResolves (mkResponse code (BodyInvalid msg))) now st =
     reported (if bool_decide (msg = "") then "Unknown error" else msg)) ∧
  (∀ code card, 200 ≤ code ≤ 299 → card ≠ JNull →
     is_array (prop "agents" card) = false →
     discoverAgents (FetchResolves (mkResponse code (BodyJson card))) now st =
     reported "No agents array in Agent Card response").
Proof.
  intros reported. subst reported. cbn beta.
  unfold discoverAgents, discover_body, try_catch, res_ok. cbn [resp_status resp_body].
  split; [done|]. split; [|split].
  - intros code body Hcode. by rewrite bool_decide_false.
  - intros code msg Hcode. by rewrite bool_decide_true.
  - intros code card Hcode Hcard Harr. rewrite bool_decide_true by done.
    cbn [negb]. rewrite run_bind. cbn [res_json resp_body]. rewrite run_ret, run_bind.
    unfold member. destruct card; try done; rewrite run_ret, not_an_array, Harr; done.
Qed.

(** X14.  A null entry stops the loop where it stands and nothing is
    rolled back: the entries before it (here with text name, role and
    goal) are registered and listed in agentsSynced, agentsDiscovered
    counts the whole array, error holds the TypeError message and
    lastRun is not advanced; the entries after it are not looked at. *)
Theorem null_entry_stops_the_loop code card good rest now st :
  200 ≤ code ≤ 299 →
  prop "agents" card = Some (JArr (good ++ JNull :: rest)) →
  Forall well_formed_entry good →
  let st' := (discoverAgents (FetchResolves (mkResponse code (BodyJson card))) now st).1 in
  discoveryStatus st' =
    mkDiscoveryStatus (lastRun (discoveryStatus st)) (length (good ++ JNull :: rest))
      (entry_name <$> good)
      (Some "Cannot read properties of null (reading 'name')") ∧
  ∀ e, e ∈ good → is_Some (agent_by_name (entry_name e) (agents st')).
Proof.
  intros Hok Harr Hwf st'. subst st'.
  destruct (fetched_document_syncs code card _ Hok Harr) as [Hearly Hentries].
  rewrite (discoverAgents_sync _ now st Hearly), Hentries. cbn zeta.
  rewrite upsert_all_app.
  destruct (upsert_all_well_formed good
              (sync_started (length (good ++ JNull :: rest)) st) Hwf)
    as (created & -> & Hnames).
  cbn [upsert_all]. rewrite run_bind, upsert_agent_run. cbn. done.
Qed.

Lemma upsert_agent_provenance agent st a :
  a ∈ agents (upsert_agent agent st).1 → a ∈ agents st ∨ registered_from agent a.
Proof.
  rewrite upsert_agent_run.
  destruct agent as [| | | | |fields]; try by left.
  destruct (prop "name" (JObj fields)) as [[| | |n| |]|] eqn:Hname; try by left.
  destruct (agent_by_name n (agents st)); [by left|].
  destruct (prop "role" (JObj fields)) as [[| | |r| |]|] eqn:Hrole; try by left.
  destruct (prop "goal" (JObj fields)) as [[| | |g| |]|] eqn:Hgoal; try by left.
  cbn. intros [Ha| ->%list_elem_of_singleton]%elem_of_app; [by left|right].
  by repeat split.
Qed.

Lemma upsert_all_provenance entries : ∀ st a,
  a ∈ agents (upsert_all entries st).1 →
  a ∈ agents st ∨ ∃ e, e ∈ entries ∧ registered_from e a.
Proof.
  induction entries as [|e rest IH]; intros st a; cbn [upsert_all].
  - rewrite run_ret. by left.
  - rewrite run_bind. pose proof (upsert_agent_provenance e st a) as Hstep.
    destruct (upsert_agent e st) as [st1 [[]|err]]; cbn [fst] in *.
    + intros [Ha|(e' & He' & Hfrom)]%IH.
      * destruct (Hstep Ha) as [?|?]; [by left|right]. exists e. split; [by left|done].
      * right. exists e'. split; [by right|done].
    + intros [?|?]%Hstep; [by left|right]. exists e. split; [by left|done].
Qed.

(** X15.  Every row a discovery run adds to the Agent table comes from
    an entry of the fetched document: it carries that entry's name,
    role and goal, the system prompt "Auto-registered from Agent Card
    (<name>)" and no tools. *)
Theorem registered_rows_come_from_the_document fetched now st a :
  a ∈ agents (discoverAgents fetched now st).1 →
  a ∈ agents st ∨ ∃ e, e ∈ card_entries fetched ∧ registered_from e a.
Proof.
  destruct (fails_before_sync fetched) eqn:Hearly.
  - destruct (discoverAgents_before_sync fetched now st Hearly) as (msg & _ & ->).
    by left.
  - rewrite (discoverAgents_sync fetched now st Hearly). cbn zeta.
    rewrite sync_ended_agents. by intros Ha%upsert_all_provenance.
Qed.

Lemma handle_agents st e :
  ∃ created,
    agents (handle st e) = agents st ++ created ∧
    (NoDup (agent_name <$> agents st) → NoDup (agent_name <$> agents (handle st e))).
Proof.
  destruct e as [id t0 t1|id t0 t1|fetched now| | | | | |]; cbn [handle];
    try (exists []; by rewrite app_nil_r).
  - destruct (tasks st !! id) as [t|] eqn:Ht.
    + destruct (approve_effect id t0 t1 st t Ht) as (? & _ & _ & -> & _).
      exists []. by rewrite app_nil_r.
    + rewrite approve_missing by done. exists []. by rewrite app_nil_r.
  - destruct (tasks st !! id) as [t|] eqn:Ht.
    + destruct (reject_effect id t0 t1 st t Ht) as (? & _ & _ & -> & _).
      exists []. by rewrite app_nil_r.
    + rewrite reject_missing by done. exists []. by rewrite app_nil_r.
  - apply discoverAgents_appends.
Qed.

(** X16.  The Agent table is append-only and keeps its names unique:
    after any run of events the rows it held are still there, in place
    and unmodified, and if no two rows shared a name before, none do
    after. *)
Theorem agent_names_stay_unique es st :
  ∃ created,
    agents (run st es) = agents st ++ created ∧
    (NoDup (agent_name <$> agents st) → NoDup (agent_name <$> agents (run st es))).
Proof.
  revert st. induction es as [|e es IH]; intros st; cbn [run fold_left].
  - exists []. by rewrite app_nil_r.
  - destruct (handle_agents st e) as (c1 & Hc1 & Hnd1).
    destruct (IH (handle st e)) as (c2 & Hc2 & Hnd2).
    exists (c1 ++ c2). fold (run (handle st e) es).
    split; [by rewrite Hc2, Hc1, app_assoc|auto].
Qed.

(** ** Trace listing: which traces, how many spans, which services *)

Lemma unique_ext {A} `{EqDecision A} (s1 s2 l : list A) :
  (∀ x, x ∈ s1 ↔ x ∈ s2) → unique s1 l = unique s2 l.
Proof.
  revert s1 s2. induction l as [|x l IH]; intros s1 s2 Hs; simpl; [done|].
  destruct (decide (x ∈ s1)) as [H1|H1], (decide (x ∈ s2)) as [H2|H2];
    try (by apply Hs in H1); try (by apply Hs in H2).
  - by apply IH.
  - f_equal. apply IH. intros y. rewrite !elem_of_cons. by rewrite Hs.
Qed.

Lemma unique_elem {A} `{EqDecision A} (l : list A) : ∀ seen x,
  x ∈ unique seen l ↔ x ∈ l ∧ x ∉ seen.
Proof.
  induction l as [|y l IH]; intros seen x; simpl.
  - split; [by intros ?%elem_of_nil|by intros [?%elem_of_nil _]].
  - destruct (decide (y ∈ seen)) as [Hy|Hy].
    + rewrite IH, elem_of_cons. split; [intros [? ?]; auto|].
      intros [[->|?] ?]; done.
    + split.
      * intros [->|Hin]%elem_of_cons; [split; [by left|done]|].
        apply IH in Hin as [Hl Hx]. split; [by right|].
        intros ?. apply Hx. by right.
      * intros [[->|Hl]%elem_of_cons Hx]; [by left|].
        destruct (decide (x = y)) as [->|Hne]; [by left|].
        right. apply IH. split; [done|]. by intros [?|?]%elem_of_cons.
Qed.

Lemma unique_NoDup {A} `{EqDecision A} (l : list A) : ∀ seen, NoDup (unique seen l).
Proof.
  induction l as [|y l IH]; intros seen; simpl; [constructor|].
  destruct (decide (y ∈ seen)); [apply IH|].
  constructor; [|apply IH]. rewrite unique_elem, not_elem_of_cons. intros [_ [? _]]. done.
Qed.

Lemma group_step_key_list m span :
  (group_step m span).*1 =
  if decide (traceId span ∈ m.*1) then m.*1 else m.*1 ++ [traceId span].
Proof.
  unfold group_step, om_has. rewrite om_push_keys.
  destruct (decide (traceId span ∈ m.*1)) as [Hin|Hnin].
  - rewrite bool_decide_true; [done|].
    destruct (assoc (traceId span) m) eqn:Hassoc; [eauto|].
    by apply assoc_None_keys in Hassoc.
  - apply assoc_None_keys in Hnin. rewrite bool_decide_false.
    + by apply om_set_keys_fresh.
    + rewrite Hnin. by intros [? ?].
Qed.

(** The keys of the map are the trace identifiers of the window in the
    order in which they are first met. *)
Lemma group_fold_keys window : ∀ m,
  (fold_left group_step window m).*1 = m.*1 ++ unique (m.*1) (traceId <$> window).
Proof.
  induction window as [|span window IH]; intros m; cbn [fold_left fmap list_fmap unique].
  - by rewrite app_nil_r.
  - rewrite IH, group_step_key_list.
    destruct (decide (traceId span ∈ m.*1)) as [Hin|Hnin]; [done|].
    rewrite <- app_assoc. cbn. do 2 f_equal. apply unique_ext.
    intros x. rewrite elem_of_app, list_elem_of_singleton, elem_of_cons. tauto.
Qed.


Lemma map_result_summarize l :
  (∀ k g, (k, g) ∈ l → g ≠ []) →
  ∃ summaries,
    map_result summarize l = Ok summaries ∧
    ts_traceId <$> summaries = l.*1 ∧
    ∀ summary, summary ∈ summaries → ∃ k g, (k, g) ∈ l ∧ summarize (k, g) = Ok summary.
Proof.
  induction l as [|[k g] l IH]; intros Hne; cbn [map_result].
  - exists []. repeat split; try done. by intros ? ?%elem_of_nil.
  - destruct (summarize_nonempty k g) as [y Hy]; [apply (Hne k); by left|].
    rewrite Hy. destruct IH as (ys & -> & Hids & Hys).
    { intros k' g' Hin. apply (Hne k'). by right. }
    exists (y :: ys). split; [done|]. split.
    + cbn. apply summarize_spec in Hy as (-> & _). by rewrite Hids.
    + intros y' [->|Hin]%elem_of_cons.
      * exists k, g. split; [by left|done].
      * destruct (Hys y' Hin) as (k' & g' & ? & ?). exists k', g'. split; [by right|done].
Qed.


Lemma summarize_services k spans summary :
  summarize (k, spans) = Ok summary → services summary = unique [] (service <$> spans).
Proof.
  unfold summarize. destruct (find_root spans); [|done]. by intros [= <-].
Qed.

Lemma root_among_elem candidate spans root : root_among candidate spans root → root ∈ spans.
Proof.
  intros [(pre & post & -> & _)|[_ Hhead]].
  - apply elem_of_app. right. by left.
  - destruct spans; simplify_eq/=. by left.
Qed.

(** X18.  In every trace summary spanCount is the number of spans of
    that trace in the window, never zero, and services lists without
    repetition exactly the services of those spans, the root's among
    them. *)
Theorem summary_counts_spans_and_services q window :
  ∃ resp,
    get_traces q window = Ok resp ∧
    ∀ summary, summary ∈ traces resp →
      let spans := spans_of (ts_traceId summary) window in
      spanCount summary = length spans ∧
      (0 < spanCount summary)%nat ∧
      NoDup (services summary) ∧
      (∀ s, s ∈ services summary ↔ ∃ x, x ∈ spans ∧ service x = s) ∧
      rootService summary ∈ services summary.
Proof.
  unfold get_traces.
  destruct (map_result_summarize (slice0 (traces_limit q) (group_spans window)))
    as (summaries & -> & _ & Hsummaries).
  { intros k g Hin%slice0_elem. by apply group_spans_entry in Hin as [_ ?]. }
  eexists. split; [done|]. cbn [traces]. intros summary Hin.
  destruct (Hsummaries summary Hin) as (k & g & Hentry%slice0_elem & Hsum).
  apply group_spans_entry in Hentry as [-> Hne].
  pose proof (summarize_services _ _ _ Hsum) as Hservices.
  apply summarize_spec in Hsum as (-> & _ & Hcount & _ & root & Hroot & Hservice & _).
  cbn zeta. rewrite Hcount, Hservices.
  assert (∀ s, s ∈ unique [] (service <$> spans_of k window) ↔
               ∃ x, x ∈ spans_of k window ∧ service x = s) as Hiff.
  { intros s. rewrite unique_elem, list_elem_of_fmap. split.
    - intros [(x & -> & Hx) _]. eauto.
    - intros (x & Hx & <-). split; [eauto|apply not_elem_of_nil]. }
  split; [done|]. split; [destruct (spans_of k window); [done|cbn; lia]|].
  split; [apply unique_NoDup|]. split; [done|].
  apply Hiff. exists root. split; [|done].
  by eapply root_among_elem, find_root_spec.
Qed.

Lemma om_push_concat {V} k (x : V) (m : OrderedMap (list V)) :
  is_Some (assoc k m) → concat (om_push k x m).*2 ≡ₚ x :: concat m.*2.
Proof.
  induction m as [|[k' g] m IH]; simpl; [by intros [? ?]|].
  destruct (decide (k' = k)) as [->|Hne]; cbn.
  - intros _. rewrite <- app_assoc. cbn. by rewrite <- Permutation_middle.
  - intros Hk. rewrite (IH Hk). by rewrite <- Permutation_middle.
Qed.

Lemma om_set_concat_fresh {V} k (m : OrderedMap (list V)) :
  assoc k m = None → concat (om_set k [] m).*2 = concat m.*2.
Proof.
  induction m as [|[k' g] m IH]; simpl; [done|].
  destruct (decide (k' = k)); [done|]. intros Hk. cbn. by rewrite IH.
Qed.

Lemma group_step_concat m span : concat (group_step m span).*2 ≡ₚ span :: concat m.*2.
Proof.
  unfold group_step, om_has. case_bool_decide as Hhas.
  - by apply om_push_concat.
  - assert (assoc (traceId span) m = None) as Hnone.
    { destruct (assoc _ m) eqn:?; [|done]. destruct Hhas. eauto. }
    rewrite om_push_concat, om_set_concat_fresh; [done..|].
    rewrite assoc_om_set, decide_True by done. eauto.
Qed.

(** Grouping neither loses nor repeats a span. *)
Lemma group_fold_concat window : ∀ m,
  concat (fold_left group_step window m).*2 ≡ₚ concat m.*2 ++ window.
Proof.
  induction window as [|span window IH]; intros m; cbn [fold_left].
  - by rewrite app_nil_r.
  - rewrite IH, group_step_concat. by rewrite <- Permutation_middle.
Qed.

Lemma length_concat_sum {A} (ls : list (list A)) :
  length (concat ls) = sum_list (length <$> ls).
Proof. induction ls as [|l ls IH]; [done|]. cbn. by rewrite length_app, IH. Qed.

Lemma map_result_spanCount l summaries :
  map_result summarize l = Ok summaries → spanCount <$> summaries = length <$> l.*2.
Proof.
  revert summaries. induction l as [|[k g] l IH]; intros summaries; cbn [map_result].
  - by intros [= <-].
  - destruct (summarize (k, g)) as [y|] eqn:Hy; [|done].
    destruct (map_result summarize l) as [ys|]; [|done]. intros [= <-].
    apply summarize_spec in Hy as (_ & _ & Hcount & _). cbn. by rewrite Hcount, (IH ys).
Qed.

(** X19.  Grouping loses no span and repeats none: when the limit is
    not negative and covers every trace of the window, the spanCount
    values of the listing add up to the number of spans fetched. *)
Theorem every_span_is_counted_once q window resp :
  0 ≤ traces_limit q →
  (length (unique [] (traceId <$> window)) ≤ Z.to_nat (traces_limit q))%nat →
  get_traces q window = Ok resp →
  sum_list (spanCount <$> traces resp) = length window.
Proof.
  intros Hpos Hcovers. unfold get_traces.
  assert (slice0 (traces_limit q) (group_spans window) = group_spans window) as ->.
  { unfold slice0. rewrite (proj2 (Z.leb_le _ _) Hpos). apply take_ge.
    rewrite <- (length_fmap fst).
    by rewrite (group_fold_keys window [] : (group_spans window).*1 = _). }
  destruct (map_result summarize (group_spans window)) as [summaries|] eqn:Hmap; [|done].
  intros [= <-]. cbn [traces].
  rewrite (map_result_spanCount _ _ Hmap), <- length_concat_sum.
  by rewrite (group_fold_concat window [] : concat (group_spans window).*2 ≡ₚ _).
Qed.

Lemma handle_decision st e id t :
  tasks st !! id = Some t →
  tasks (handle st e) !! id = Some (with_status (decision id (status t) e) t).
Proof.
  intros Ht.
  destruct e as [id' t0 t1|id' t0 t1|fetched now| | | | | |];
    cbn [handle decision]; rewrite ?with_status_same; try done.
  - destruct (tasks st !! id') as [t'|] eqn:Ht'.
    + destruct (approve_effect id' t0 t1 st t' Ht') as (? & _ & -> & _).
      destruct (decide (id' = id)) as [->|Hne].
      * rewrite lookup_insert_eq. by simplify_eq.
      * by rewrite lookup_insert_ne, with_status_same.
    + rewrite approve_missing by done.
      destruct (decide (id' = id)) as [->|Hne]; [congruence|].
      by rewrite with_status_same.
  - destruct (tasks st !! id') as [t'|] eqn:Ht'.
    + destruct (reject_effect id' t0 t1 st t' Ht') as (? & _ & -> & _).
      destruct (decide (id' = id)) as [->|Hne].
      * rewrite lookup_insert_eq. by simplify_eq.
      * by rewrite lookup_insert_ne, with_status_same.
    + rewrite reject_missing by done.
      destruct (decide (id' = id)) as [->|Hne]; [congruence|].
      by rewrite with_status_same.
  - by destruct (stable_discoverAgents fetched now st) as (-> & _).
Qed.

(** X20.  The last decision wins: after any run of events a task is in
    the status set by the last approve or reject event that names it,
    whatever was decided before, and in its original status when no
    event names it; nothing else of the row changes. *)
Theorem last_decision_wins es st id t :
  tasks st !! id = Some t →
  tasks (run st es) !! id = Some (with_status (fold_left (decision id) es (status t)) t).
Proof.
  revert st t. induction es as [|e es IH]; intros st t Ht; cbn [run fold_left].
  - by rewrite with_status_same.
  - fold (run (handle st e) es).
    by rewrite (IH _ _ (handle_decision st e id t Ht)).
Qed.

End Server.

(** * The properties at work on the sample data *)

Lemma sample_uuid_inj : Inj (=) (=) sample_uuid.
Proof.
  intros n m Heq. unfold sample_uuid in Heq. cbn [String.append] in Heq.
  injection Heq as Heq. by apply (inj pretty).
Qed.


(** C1, as stated, fails: rejecting the task that is already APPROVED
    switches it to REJECTED. *)
Lemma terminal_status_switch_counterexample :
  ∃ t t',
    tasks sample_store !! "task-4" = Some t ∧ status t = APPROVED ∧
    tasks (handle sample_uuid sample_store (Reject "task-4" 0 5)) !! "task-4" = Some t' ∧
    status t' = REJECTED.
Proof. do 2 eexists. repeat split; reflexivity. Qed.

Lemma status_never_returns_to_pending_witness :
  tasks sample_store !! "task-4"
    = Some (sample_task APPROVED (JObj [("source", JStr "github")]) 50) ∧
  ∃ t',
    tasks (run sample_uuid sample_store
             [Reject "task-4" 0 5; GetTasks 10; Approve "task-1" 20 25]) !! "task-4" = Some t' ∧
    (APPROVED ≠ PENDING → status t' ≠ PENDING).
Proof.
  split; [reflexivity|].
  destruct (status_never_returns_to_pending sample_uuid
              [Reject "task-4" 0 5; GetTasks 10; Approve "task-1" 20 25]
              sample_store "task-4" _ eq_refl) as (t' & Hrun & Hstatus & _).
  exists t'. split; [exact Hrun|exact Hstatus].
Defined.

(** C3, as stated, fails: the payload of "task-3" has a traceId field,
    the empty string, and the resume signal carries another one. *)
Lemma empty_traceId_counterexample :
  ∃ t v m,
    tasks sample_store !! "task-3" = Some t ∧
    opt_prop "traceId" (inputPayload t) = Some v ∧
    last (bus (approve sample_uuid "task-3" 0 5 sample_store).1) = Some m ∧
    msg_attr_traceId m ≠ v ∧ prop "traceId" (msg_data m) ≠ Some v.
Proof. do 3 eexists. repeat split; try reflexivity; vm_compute; discriminate. Qed.

Lemma approve_publishes_resume_witness :
  tasks sample_store !! "task-2"
    = Some (sample_task PENDING (JObj [("traceId", JStr "trace-42")]) 100000) ∧
  (∃ t', tasks (approve sample_uuid "task-2" 0 5 sample_store).1 !! "task-2" = Some t' ∧
         status t' = APPROVED) ∧
  bus (approve sample_uuid "task-2" 0 5 sample_store).1 =
    [mkBusMessage
       (JObj [("type", JStr "RESUME"); ("taskId", JStr "task-2");
              ("agentId", JStr "agent-1"); ("traceId", JStr "trace-42")])
       (JStr "trace-42")].
Proof.
  split; [reflexivity|].
  destruct (approve_publishes_resume sample_uuid sample_uuid_inj "task-2" 0 5
              sample_store _ eq_refl) as ((t' & Ht' & Hstatus & _) & Hbus & _).
  split; [exists t'; split; [exact Ht'|exact Hstatus]|].
  exact (Hbus "trace-42" eq_refl ltac:(discriminate)).
Defined.

(** A number as trace identifier: the approval is written, the bus
    client refuses the attribute, and neither signal nor span follows. *)
Example numeric_traceId_is_not_published :
  let result := approve sample_uuid "task-5" 0 5 sample_store_numeric in
  status <$> tasks result.1 !! "task-5" = Some APPROVED ∧
  bus result.1 = [] ∧ spans result.1 = [] ∧
  ∃ e, result.2 = Throw e ∧ err_kind e = TypeError.
Proof. repeat split; try reflexivity. eexists. split; reflexivity. Qed.

(** C4, as stated, fails: the payload of "task-5" carries the number 42
    as traceId and its owner is joined; reject sets the task REJECTED,
    but the span store refuses the row, so that no span is recorded and
    the request fails. *)
Lemma numeric_traceId_counterexample :
  ∃ t e,
    tasks sample_store_numeric !! "task-5" = Some t ∧
    opt_prop "traceId" (inputPayload t) = Some (JNum 42) ∧
    agent_by_id (agentId t) (agents sample_store_numeric) = Some sample_agent ∧
    status <$> tasks (reject sample_uuid "task-5" 0 5 sample_store_numeric).1 !! "task-5"
      = Some REJECTED ∧
    spans (reject sample_uuid "task-5" 0 5 sample_store_numeric).1
      = spans sample_store_numeric ∧
    (reject sample_uuid "task-5" 0 5 sample_store_numeric).2 = Throw e ∧
    err_kind e = ValidationError.
Proof. do 2 eexists. repeat split; reflexivity. Qed.

Lemma reject_records_without_publishing_witness :
  tasks sample_store !! "task-2"
    = Some (sample_task PENDING (JObj [("traceId", JStr "trace-42")]) 100000) ∧
  (∃ t', tasks (reject sample_uuid "task-2" 0 5 sample_store).1 !! "task-2" = Some t' ∧
         status t' = REJECTED) ∧
  bus (reject sample_uuid "task-2" 0 5 sample_store).1 = bus sample_store ∧
  spans (reject sample_uuid "task-2" 0 5 sample_store).1 =
    [mkSpanData (JStr "trace-42") "acc" "reject_task" 5
       (JObj [("taskId", JStr "task-2"); ("agentName", JStr "Researcher")])].
Proof.
  split; [reflexivity|].
  destruct (reject_records_without_publishing sample_uuid "task-2" 0 5
              sample_store _ eq_refl)
    as ((t' & Ht' & Hstatus & _) & Hbus & traceId & Hd & _ & Hspans).
  split; [exists t'; split; [exact Ht'|exact Hstatus]|].
  split; [exact Hbus|].
  injection Hd as <-.
  exact (proj1 (proj1 (Hspans sample_agent eq_refl) eq_refl)).
Defined.


(** C5, as stated, fails: a run that throws inside the upsert loop has
    already replaced agentsDiscovered and agentsSynced of the prior
    successful run. *)
Lemma torn_sync_counterexample :
  let before := discoveryStatus sample_synced_store in
  let after :=
    discoveryStatus
      (discoverAgents sample_uuid
         (FetchResolves (mkResponse 200 (BodyJson sample_card_torn)))
         2000 sample_synced_store).1 in
  (discoverAgents sample_uuid (FetchResolves (mkResponse 200 (BodyJson sample_card)))
     1000 sample_store).1 = sample_synced_store ∧
  (error before = None ∧ lastRun before = Some 1000) ∧
  error after = Some "Cannot read properties of null (reading 'name')" ∧
  (agentsDiscovered before = 1%nat ∧ agentsDiscovered after = 2%nat) ∧
  (agentsSynced before = ["Researcher"] ∧ agentsSynced after = ["Writer"]).
Proof. vm_compute. repeat split. Qed.

(** C9, as stated, fails: the first span with a null parentId is
    "span-1", of duration 7, and the summary reports the duration of
    "span-2", whose parentId is the empty string. *)
Lemma empty_parent_root_counterexample :
  ∃ resp summary root,
    get_traces None sample_window = Ok resp ∧
    summary ∈ traces resp ∧
    root_among null_parent (spans_of (ts_traceId summary) sample_window) root ∧
    totalDurationMs summary ≠ durationMs root ∧
    rootService summary ≠ service root.
Proof.
  do 3 eexists. split; [reflexivity|]. split; [by left|]. split.
  - left. eexists [_], []. split; [reflexivity|]. split; [reflexivity|].
    constructor; [discriminate|constructor].
  - split; vm_compute; discriminate.
Qed.

(** ** The queue and the zombie list of the sample store *)

(** At 600000 ms the task created at 300000 ms is exactly five minutes
    old and is not flagged; one second later it is. *)
Example get_tasks_at_threshold :
  (λ v, (row_id (tv_row v), isZombie v)) <$> tasks_listed (get_tasks 600000 sample_store)
  = [("task-3", false); ("task-2", true); ("task-1", true)].
Proof. reflexivity. Qed.

Example get_tasks_past_threshold :
  (λ v, (row_id (tv_row v), isZombie v)) <$> tasks_listed (get_tasks 601000 sample_store)
  = [("task-3", true); ("task-2", true); ("task-1", true)].
Proof. reflexivity. Qed.

Example get_zombies_oldest_first :
  row_id <$> zombies (get_zombies 600000 sample_store) = ["task-1"; "task-2"] ∧
  threshold (get_zombies 600000 sample_store) = "5 minutes".
Proof. split; reflexivity. Qed.

(** Once approved, a stale task leaves both lists and one span with
    operation approve_task exists under its trace identifier. *)
Example approved_task_leaves_the_queue :
  let st' := (approve sample_uuid "task-2" 600000 600004 sample_store).1 in
  row_id <$> zombies (get_zombies 600000 st') = ["task-1"] ∧
  (row_id ∘ tv_row) <$> tasks_listed (get_tasks 600000 st') = ["task-3"; "task-1"] ∧
  spans st' =
    [mkSpanData (JStr "trace-42") "acc" "approve_task" 4
       (JObj [("taskId", JStr "task-2"); ("agentName", JStr "Researcher")])].
Proof. repeat split; reflexivity. Qed.

(** A registry document naming an unknown agent creates it once; a
    second run leaves the table as it is. *)
Example discovery_registers_once :
  let fetched := FetchResolves (mkResponse 200 (BodyJson sample_card_torn)) in
  let st1 := (discoverAgents sample_uuid fetched 1000 sample_store).1 in
  let st2 := (discoverAgents sample_uuid fetched 2000 st1).1 in
  agent_name <$> agents st1 = ["Researcher"; "Writer"] ∧
  agent_name <$> agents st2 = ["Researcher"; "Writer"] ∧
  agentsSynced (discoveryStatus st2) = ["Writer"].
Proof. repeat split; reflexivity. Qed.

(** ** The further properties at work on the sample data *)

Lemma sample_store_joined : owners_joined sample_store.
Proof.
  intros id t Ht. unfold sample_store in Ht. cbn [tasks] in Ht.
  repeat (apply lookup_insert_Some in Ht as [[_ <-]|[_ Ht]]; [by eexists|]).
  by rewrite lookup_empty in Ht.
Qed.

Lemma sample_card_well_formed :
  Forall well_formed_entry
    [JObj [("id", JStr "r-1"); ("name", JStr "Researcher");
           ("role", JStr "research"); ("goal", JStr "Answer questions");
           ("tools", JArr [])]].
Proof. repeat constructor. by eexists _, _, _. Qed.

Lemma sample_writer_well_formed : Forall well_formed_entry [sample_writer_entry].
Proof. repeat constructor. by eexists _, _, _. Qed.

Lemma unknown_task_is_refused_witness :
  tasks sample_store !! "task-9" = None ∧
  ∃ e, approve sample_uuid "task-9" 0 5 sample_store = (sample_store, Throw e) ∧
       err_kind e = RecordNotFound.
Proof.
  split; [reflexivity|].
  exact (proj1 (unknown_task_is_refused sample_uuid "task-9" 0 5 sample_store eq_refl)).
Defined.

Lemma reapproval_republishes_witness :
  tasks sample_store !! "task-2"
    = Some (sample_task PENDING (JObj [("traceId", JStr "trace-42")]) 100000) ∧
  tasks (approve sample_uuid "task-2" 6 9
           (approve sample_uuid "task-2" 0 5 sample_store).1).1
    = tasks (approve sample_uuid "task-2" 0 5 sample_store).1 ∧
  ∃ m, bus (approve sample_uuid "task-2" 6 9
              (approve sample_uuid "task-2" 0 5 sample_store).1).1
       = bus sample_store ++ [m; m].
Proof.
  split; [reflexivity|].
  destruct (reapproval_republishes sample_uuid sample_uuid_inj "task-2" 0 5 6 9
              sample_store _ eq_refl) as (Htasks & Htext & _).
  split; [exact Htasks|].
  destruct (Htext eq_refl) as (m1 & m2 & Hbus & Hsame & _).
  exists m1. rewrite Hbus, (Hsame eq_refl). reflexivity.
Defined.

Lemma resolved_task_leaves_both_lists_witness :
  targeted (Reject "task-1" 600000 600004) = Some "task-1" ∧
  tasks sample_store !! "task-1" = Some (sample_task PENDING JNull 0) ∧
  ∀ row,
    row ∈ zombies (get_zombies 600000
                     (handle sample_uuid sample_store (Reject "task-1" 600000 600004))) ↔
    row ∈ zombies (get_zombies 600000 sample_store) ∧ row_id row ≠ "task-1".
Proof.
  split; [reflexivity|]. split; [reflexivity|].
  exact (proj2 (resolved_task_leaves_both_lists sample_uuid
                  (Reject "task-1" 600000 600004) "task-1" _ 600000 sample_store
                  eq_refl eq_refl)).
Defined.

Lemma zombies_accumulate_witness :
  600000 ≤ 601000 ∧
  mkTaskRow "task-2" (sample_task PENDING (JObj [("traceId", JStr "trace-42")]) 100000)
    (Some sample_agent) ∈ zombies (get_zombies 601000 sample_store).
Proof.
  split; [lia|].
  apply (zombies_accumulate 600000 601000 sample_store); [lia|].
  vm_compute. right. left.
Defined.

Lemma sample_store_numeric_joined : owners_joined sample_store_numeric.
Proof.
  intros id t Ht. unfold sample_store_numeric, sample_store in Ht. cbn [tasks set_tasks] in Ht.
  repeat (apply lookup_insert_Some in Ht as [[_ <-]|[_ Ht]]; [by eexists|]).
  by rewrite lookup_empty in Ht.
Qed.

Lemma owners_stay_joined_witness :
  tasks sample_store !! "task-1" = Some (sample_task PENDING JNull 0) ∧
  let st' :=
    run sample_uuid sample_store
      [Approve "task-1" 0 5;
       Discover (FetchResolves (mkResponse 200 (BodyJson sample_card_torn))) 10] in
  owners_joined st' ∧
  ∃ row, (reject sample_uuid "task-1" 20 25 st').2 = Ok row ∧
         status (row_task row) = REJECTED ∧ is_Some (row_agent row).
Proof.
  split; [reflexivity|]. intros st'.
  destruct (owners_stay_joined sample_uuid
              [Approve "task-1" 0 5;
               Discover (FetchResolves (mkResponse 200 (BodyJson sample_card_torn))) 10]
              sample_store "task-1" 20 25 _ sample_store_joined eq_refl)
    as (Hjoined & Htext & _).
  split; [exact Hjoined|].
  destruct (proj2 (Htext eq_refl)) as (row & Hrow & _ & Hstatus & Hagent).
  exists row. split; [exact Hrow|]. split; [exact Hstatus|exact Hagent].
Defined.

Lemma one_span_per_resolution_witness :
  ∃ new,
    spans (run sample_uuid sample_store_numeric
             [Approve "task-1" 0 5; GetTasks 6; Reject "task-9" 7 8; Reject "task-5" 9 10;
              Reject "task-2" 11 14])
      = spans sample_store_numeric ++ new ∧
    length new = 2%nat.
Proof.
  destruct (one_span_per_resolution sample_uuid
              [Approve "task-1" 0 5; GetTasks 6; Reject "task-9" 7 8; Reject "task-5" 9 10;
               Reject "task-2" 11 14]
              sample_store_numeric sample_store_numeric_joined) as (new & Hspans & Hlen & _).
  exists new. split; [exact Hspans|exact Hlen].
Defined.

Lemma well_formed_document_syncs_witness :
  200 ≤ 200 ≤ 299 ∧
  discoveryStatus
    (discoverAgents sample_uuid (FetchResolves (mkResponse 200 (BodyJson sample_card)))
       1000 sample_store).1
    = mkDiscoveryStatus (Some 1000) 1 ["Researcher"] None.
Proof.
  split; [lia|].
  exact (proj1 (well_formed_document_syncs sample_uuid 200 sample_card _ 1000 sample_store
                  ltac:(lia) eq_refl sample_card_well_formed)).
Defined.

Lemma null_entry_stops_the_loop_witness :
  200 ≤ 200 ≤ 299 ∧
  discoveryStatus
    (discoverAgents sample_uuid (FetchResolves (mkResponse 200 (BodyJson sample_card_torn)))
       2000 sample_synced_store).1
    = mkDiscoveryStatus (Some 1000) 2 ["Writer"]
        (Some "Cannot read properties of null (reading 'name')").
Proof.
  split; [lia|].
  exact (proj1 (null_entry_stops_the_loop sample_uuid 200 sample_card_torn
                  [sample_writer_entry] [] 2000
                  sample_synced_store ltac:(lia) eq_refl sample_writer_well_formed)).
Defined.

Lemma registered_rows_come_from_the_document_witness :
  let fetched := FetchResolves (mkResponse 200 (BodyJson sample_card_torn)) in
  let writer :=
    mkAgent (sample_uuid 0) "Writer" "writing" "Draft reports"
      "Auto-registered from Agent Card (Writer)" [] in
  writer ∈ agents (discoverAgents sample_uuid fetched 2000 sample_store).1 ∧
  (writer ∈ agents sample_store ∨
   ∃ e, e ∈ card_entries fetched ∧ registered_from e writer).
Proof.
  intros fetched writer.
  assert (writer ∈ agents (discoverAgents sample_uuid fetched 2000 sample_store).1) as Hin
    by (vm_compute; right; left).
  split; [exact Hin|].
  exact (registered_rows_come_from_the_document sample_uuid fetched 2000 sample_store
           writer Hin).
Defined.


Lemma every_span_is_counted_once_witness :
  0 ≤ traces_limit None ∧
  ∃ resp, get_traces None sample_window = Ok resp ∧
          sum_list (spanCount <$> traces resp) = length sample_window.
Proof.
  split; [vm_compute; discriminate|].
  eexists. split; [reflexivity|].
  apply (every_span_is_counted_once None sample_window);
    [vm_compute; discriminate|vm_compute; lia|reflexivity].
Defined.

Lemma last_decision_wins_witness :
  tasks sample_store !! "task-1" = Some (sample_task PENDING JNull 0) ∧
  status <$>
    tasks (run sample_uuid sample_store
             [Approve "task-1" 0 5; Reject "task-2" 6 7; Reject "task-1" 8 9;
              Approve "task-1" 10 11]) !! "task-1"
    = Some APPROVED.
Proof.
  split; [reflexivity|].
  rewrite (last_decision_wins sample_uuid
             [Approve "task-1" 0 5; Reject "task-2" 6 7; Reject "task-1" 8 9;
              Approve "task-1" 10 11]
             sample_store "task-1" _ eq_refl).
  reflexivity.
Defined.
